(** * PromptDec: embedding cache, similarity search and deck interchange

    A shallow embedding of the retrieval core of PromptDec:
    - [cosineSimilarity] and [semanticSearch] (architecture document,
      "Search Implementation"), over IEEE-754 binary64 numbers;
    - [getCachedEmbedding] and [cacheEmbedding] ("Caching Strategy");
    - [getSchema] ("Migration Strategy");
    - the deck interchange document and its import.

    JavaScript numbers are Rocq's primitive binary64 floats; general facts
    about them are derived from their specification in [SpecFloat].

    Part I holds the definitions, Part II the properties. *)

From Stdlib Require Import ZArith Lia List Bool Ascii String Floats.
From Stdlib Require Import Sorting.Sorted Sorting.Permutation.
From stdpp Require Import base option list strings gmap.
Import ListNotations.

(** * Part I: the model *)

(** ** JavaScript numbers and arrays *)

Module JS.

Definition number := float.

Definition NaN : number := nan.

(** [b[i]] read in an arithmetic context: an index past the end gives
    [undefined], and ToNumber(undefined) is NaN. *)
Definition index (b : list number) (i : nat) : number := nth i b NaN.

(** [arr.reduce((acc, x, i) => f(acc, x, i), init)], counting from [i0]. *)
Fixpoint reduce_from {A B : Type} (f : B -> A -> nat -> B) (i0 : nat)
    (acc : B) (arr : list A) : B :=
  match arr with
  | [] => acc
  | x :: rest => reduce_from f (S i0) (f acc x i0) rest
  end.

Definition reduce {A B : Type} (f : B -> A -> nat -> B) (init : B)
    (arr : list A) : B :=
  reduce_from f 0 init arr.

(** ECMAScript SortCompare with a user comparator: a NaN outcome counts
    as +0. *)
Definition SortCompare {A : Type} (comparefn : A -> A -> number)
    (x y : A) : number :=
  let v := comparefn x y in
  if is_nan v then 0%float else v.

(** [Array.prototype.sort] is stable, and with a consistent comparator
    every stable sort yields the same array.  The model inserts from the
    right: [x] moves past [y] only when the comparator puts [y] strictly
    first (a positive outcome for the pair [(x, y)]). *)
Fixpoint sort_insert {A : Type} (comparefn : A -> A -> number) (x : A)
    (arr : list A) : list A :=
  match arr with
  | [] => [x]
  | y :: rest =>
      if (0 <? SortCompare comparefn x y)%float
      then y :: sort_insert comparefn x rest
      else x :: y :: rest
  end.

Definition sort {A : Type} (comparefn : A -> A -> number)
    (arr : list A) : list A :=
  List.fold_right (sort_insert comparefn) [] arr.

(** Descending order of the keys, between any two positions. *)
Definition descending {A : Type} (key : A -> number) : list A -> Prop :=
  StronglySorted (fun u v => (key v <=? key u)%float = true).

End JS.

(** ** Shapes of binary64 values used by the number facts *)

Module Binary64.

(** A nonzero number of sign [s]: finite or infinite. *)
Definition signed_nonzero (s : bool) (x : spec_float) : Prop :=
  match x with
  | S754_finite s' _ _ | S754_infinity s' => s' = s
  | _ => False
  end.

(** A zero of either sign, or NaN. *)
Definition zero_or_nan (x : spec_float) : Prop :=
  match x with
  | S754_zero _ | S754_nan => True
  | _ => False
  end.

(** The same on a primitive float. *)
Definition zn (x : float) : Prop := zero_or_nan (Prim2SF x).

End Binary64.

(** ** Shapes of binary64 values used by the overflow facts *)

Module Binary64Sign.

(** +0, a positive number, +infinity or NaN: what a sum of squares and its
    square root can be. *)
Definition nonneg_or_nan (x : spec_float) : Prop :=
  match x with
  | S754_zero s | S754_finite s _ _ | S754_infinity s => s = false
  | S754_nan => True
  end.

(** +infinity or NaN. *)
Definition posinf_or_nan (x : spec_float) : Prop :=
  match x with
  | S754_infinity s => s = false
  | S754_nan => True
  | _ => False
  end.

(** An infinity of either sign, or NaN. *)
Definition inf_or_nan (x : spec_float) : Prop :=
  match x with
  | S754_infinity _ | S754_nan => True
  | _ => False
  end.

End Binary64Sign.

(** ** Similarity search, as a function of its arguments *)

Module Search.
Import JS.
Local Open Scope float_scope.

(** function cosineSimilarity(a: number[], b: number[]): number *)
Definition cosineSimilarity (a b : list number) : number :=
  let dot := reduce (fun sum x i => sum + x * index b i) 0 a in
  let magA := sqrt (reduce (fun sum x (_ : nat) => sum + x * x) 0 a) in
  let magB := sqrt (reduce (fun sum x (_ : nat) => sum + x * x) 0 b) in
  dot / (magA * magB).

(** A vector of magnitude zero: every component is zero (+0 or -0). *)
Definition zeroVector (v : list number) : Prop :=
  Forall (fun x => (x =? 0) = true) v.

(** The columns of a card row that the search reads or returns. *)
Record Card : Type := mkCard {
  id : string;
  back_content : string;
  content_embedding : string (* JSON array text: "[0.123, 0.456, ...]" *)
}.

(** { card, similarity } *)
Record Scored : Type := mkScored {
  card : Card;
  similarity : number
}.

(** (a, b) => b.similarity - a.similarity *)
Definition bySimilarityDesc (a b : Scored) : number :=
  similarity b - similarity a.

Section WithModel.

(** The embedding model behind [getEmbedding] and the decoder [JSON.parse]
    applied to the stored embedding text are external.  [JSON.parse] is
    taken on the documented content of the column, a JSON array of
    numbers, where it returns an array. *)
Variable getEmbedding : string -> list number.
Variable JSON_parse : string -> list number.

(** The vector a candidate card is compared by. *)
Definition candidateVector (c : Card) : list number :=
  JSON_parse (content_embedding c).

(** card => ({ card, similarity: cosineSimilarity(queryEmbedding, ...) }) *)
Definition score (queryEmbedding : list number) (c : Card) : Scored :=
  {| card := c;
     similarity := cosineSimilarity queryEmbedding (candidateVector c) |}.

(** export async function semanticSearch(query, cards, threshold = 0.6) *)
Definition semanticSearch (query : string) (cards : list Card)
    (threshold : number) : list Card :=
  let queryEmbedding := getEmbedding query in
  let results :=
    sort bySimilarityDesc
      (List.filter (fun r => threshold <? similarity r)
         (List.map (score queryEmbedding) cards)) in
  List.map card results.

(** The score [semanticSearch] ranks a card by. *)
Definition scoreOf (query : string) (c : Card) : number :=
  similarity (score (getEmbedding query) c).

End WithModel.

End Search.

(** ** Similarity search, over the JavaScript heap

    The same function with its effects: cards are objects, [cards] is a
    reference to an array of card references, [map] and [filter] allocate
    fresh arrays and [sort] reorders its receiver in place. *)

Module SearchHeap.
Import JS Search.
Local Open Scope float_scope.

Definition loc := positive.

Inductive object : Type :=
| OCard (row : Card)                      (* a card object *)
| OCards (elems : list loc)               (* Card[]: card references *)
| OScored (elems : list (loc * number)).  (* { card, similarity }[] *)

(** A computation over the heap; [None] is a thrown TypeError (a read
    through a reference that holds no object of the expected shape). *)
Definition M (A : Type) : Type := gmap loc object -> option (A * gmap loc object).

Definition value {A : Type} (a : A) : M A := fun h => Some (a, h).

Definition bind {A B : Type} (m : M A) (k : A -> M B) : M B :=
  fun h => match m h with
           | Some (a, h') => k a h'
           | None => None
           end.

Notation "x <- m ;; k" := (bind m (fun x => k))
  (at level 100, m at next level, right associativity).

Definition throw {A : Type} : M A := fun _ => None.

Definition alloc (o : object) : M loc :=
  fun h => let l := fresh (dom h) in Some (l, <[l := o]> h).

Definition load (l : loc) : M object :=
  fun h => match h !! l with
           | Some o => Some (o, h)
           | None => None
           end.

Definition store (l : loc) (o : object) : M unit :=
  fun h => Some (tt, <[l := o]> h).

Definition loadCard (l : loc) : M Card :=
  o <- load l ;; match o with OCard row => value row | _ => throw end.

Definition loadCards (l : loc) : M (list loc) :=
  o <- load l ;; match o with OCards es => value es | _ => throw end.

Definition loadScored (l : loc) : M (list (loc * number)) :=
  o <- load l ;; match o with OScored es => value es | _ => throw end.

(** The callback runs on the elements from left to right. *)
Fixpoint mapM {A B : Type} (f : A -> M B) (l : list A) : M (list B) :=
  match l with
  | [] => value []
  | x :: rest =>
      bind (f x) (fun y => bind (mapM f rest) (fun ys => value (y :: ys)))
  end.

(** (a, b) => b.similarity - a.similarity, on the array's elements. *)
Definition bySimilarityDescRef (a b : loc * number) : number :=
  snd b - snd a.

Section WithModel.

Variable getEmbedding : string -> list number.
Variable JSON_parse : string -> list number.

(** The callback of [cards.map]: reads the card, builds the scored pair. *)
Definition scoreRef (queryEmbedding : list number) (c : loc) : M (loc * number) :=
  row <- loadCard c ;;
  value (c, cosineSimilarity queryEmbedding (JSON_parse (content_embedding row))).

(** export async function semanticSearch(query, cards, threshold = 0.6),
    with [cards] and the result as references. *)
Definition semanticSearch (query : string) (cards : loc) (threshold : number)
    : M loc :=
  let queryEmbedding := getEmbedding query in
  (* cards.map(card => ({ card, similarity })) : a new array *)
  es <- loadCards cards ;;
  scored <- mapM (scoreRef queryEmbedding) es ;;
  mapped <- alloc (OScored scored) ;;
  (* .filter(r => r.similarity > threshold) : a new array *)
  ms <- loadScored mapped ;;
  filtered <- alloc (OScored (List.filter (fun r => threshold <? snd r) ms)) ;;
  (* .sort((a, b) => b.similarity - a.similarity) : in place *)
  fs <- loadScored filtered ;;
  _ <- store filtered (OScored (sort bySimilarityDescRef fs)) ;;
  (* results.map(r => r.card) : a new array *)
  rs <- loadScored filtered ;;
  alloc (OCards (List.map fst rs)).

(** The references [semanticSearch] leaves in its result array, for a
    candidate array holding [es] whose cards have the rows [rows]. *)
Definition rankedRefs (query : string) (threshold : number)
    (es : list loc) (rows : list Card) : list loc :=
  let queryEmbedding := getEmbedding query in
  let scored :=
    List.map (fun p => (fst p,
                cosineSimilarity queryEmbedding
                  (JSON_parse (content_embedding (snd p)))))
      (List.combine es rows) in
  List.map fst
    (sort bySimilarityDescRef
       (List.filter (fun r => threshold <? snd r) scored)).

End WithModel.

(** The array at [l] holds references to card objects with the rows
    [rows], in this order. *)
Definition denotes (h : gmap loc object) (l : loc) (rows : list Card) : Prop :=
  exists es, h !! l = Some (OCards es) /\
             Forall2 (fun e row => h !! e = Some (OCard row)) es rows.

End SearchHeap.

(** ** Similarity search, with its rejections

    [semanticSearch] first awaits [getEmbedding(query)], whose promise
    rejects when the embedding model cannot be loaded or run.  Then
    [JSON.parse] throws a SyntaxError on text that is not JSON, and
    [cosineSimilarity] throws a TypeError on a parsed value that is not
    an array ([null[i]], or a call of a [reduce] that does not exist);
    either exception leaves the callback of [cards.map].  Each of the
    three rejects the promise of [semanticSearch]. *)

Module SearchThrows.
Import JS Search.
Local Open Scope float_scope.

Section WithModel.

(** [await getEmbedding(query)]: the vector the embedding model gives for
    the text, or [None] when the promise rejects ([pipeline] fails to load
    the model, or the extractor fails on the text). *)
Variable getEmbedding : string -> option (list number).

(** [JSON.parse] on a stored embedding text, as [cosineSimilarity] reads
    the outcome: the numbers of the array the text denotes, or [None]
    when the text is not JSON or denotes something else than an array. *)
Variable JSON_parse : string -> option (list number).

(** card => ({ card, similarity: cosineSimilarity(queryEmbedding, ...) }) *)
Definition score (queryEmbedding : list number) (c : Card) : option Scored :=
  match JSON_parse (content_embedding c) with
  | Some vector =>
      Some {| card := c;
              similarity := cosineSimilarity queryEmbedding vector |}
  | None => None
  end.

(** [cards.map(callback)]: the callback runs on the elements from left to
    right, and the first exception ends the call. *)
Fixpoint mapThrowing {A B : Type} (callback : A -> option B) (arr : list A)
    : option (list B) :=
  match arr with
  | [] => Some []
  | x :: rest =>
      match callback x with
      | Some y =>
          match mapThrowing callback rest with
          | Some ys => Some (y :: ys)
          | None => None
          end
      | None => None
      end
  end.

(** export async function semanticSearch(query, cards, threshold = 0.6);
    [None] is the rejected promise. *)
Definition semanticSearch (query : string) (cards : list Card)
    (threshold : number) : option (list Card) :=
  match getEmbedding query with
  | Some queryEmbedding =>
      match mapThrowing (score queryEmbedding) cards with
      | Some scored =>
          let results :=
            sort bySimilarityDesc
              (List.filter (fun r => threshold <? similarity r) scored) in
          Some (List.map card results)
      | None => None
      end
  | None => None
  end.

(** The array a stored text is read as when it denotes one. *)
Definition parsedArray (text : string) : list number :=
  match JSON_parse text with
  | Some vector => vector
  | None => []
  end.

End WithModel.

End SearchThrows.

(** ** Embedding cache *)

Module EmbeddingCache.
Import JS.
Local Open Scope Z_scope.

(** The value type of [interface EmbeddingCache].  [Date.now()] and the
    timestamps are whole milliseconds, [ttl] is in whole seconds. *)
Record CacheEntry : Type := mkEntry {
  embedding : list number;
  timestamp : Z;
  ttl : Z
}.

Section WithHash.

(** [hashText] is not part of the sources; the cache code is read for any
    hash function. *)
Variable hashText : string -> string.

(** function getCachedEmbedding(text: string): number[] | null

    [now] is the value of [Date.now()]; the global [embeddingCache] is
    threaded through.  [delete] runs on every path that does not return
    the cached embedding, also when the key is absent. *)
Definition getCachedEmbedding (now : Z) (text : string)
    (embeddingCache : gmap string CacheEntry)
    : option (list number) * gmap string CacheEntry :=
  let hash := hashText text in
  match embeddingCache !! hash with
  | Some cached =>
      if now - timestamp cached <? ttl cached * 1000
      then (Some (embedding cached), embeddingCache)
      else (None, delete hash embeddingCache)
  | None => (None, delete hash embeddingCache)
  end.

(** function cacheEmbedding(text: string, embedding: number[]) *)
Definition cacheEmbedding (now : Z) (text : string) (embedding : list number)
    (embeddingCache : gmap string CacheEntry) : gmap string CacheEntry :=
  let hash := hashText text in
  <[hash := {| embedding := embedding;
               timestamp := now;
               ttl := 24 * 60 * 60 |}]> embeddingCache.

(** A call of the cache interface, with the clock reading it sees. *)
Inductive Call : Type :=
| Get (now : Z) (text : string)
| Put (now : Z) (text : string) (embedding : list number).

Definition step (embeddingCache : gmap string CacheEntry) (c : Call)
    : gmap string CacheEntry :=
  match c with
  | Get now text => snd (getCachedEmbedding now text embeddingCache)
  | Put now text e => cacheEmbedding now text e embeddingCache
  end.

Definition run (calls : list Call) (embeddingCache : gmap string CacheEntry)
    : gmap string CacheEntry :=
  List.fold_left step calls embeddingCache.

End WithHash.

(** The age of an entry at clock reading [now], in milliseconds. *)
Definition age (now : Z) (entry : CacheEntry) : Z := now - timestamp entry.

(** *** Cache key, from the specification *)

(** Modelled from the spec: the white space that normalization trims and
    collapses, on ASCII text: space, tab, line feed, vertical tab, form
    feed, carriage return. *)
Definition isSpace (c : ascii) : bool :=
  let n := nat_of_ascii c in
  ((n =? 32) || ((9 <=? n) && (n <=? 13)))%nat.

(** Modelled from the spec: case folding, on ASCII letters. *)
Definition toLower (c : ascii) : ascii :=
  let n := nat_of_ascii c in
  if ((65 <=? n) && (n <=? 90))%nat then ascii_of_nat (n + 32) else c.

(** Modelled from the spec: trimming at the start. *)
Fixpoint trimStart (l : list ascii) : list ascii :=
  match l with
  | [] => []
  | c :: rest => if isSpace c then trimStart rest else l
  end.

(** Modelled from the spec: trimming at both ends. *)
Definition trim (l : list ascii) : list ascii :=
  rev (trimStart (rev (trimStart l))).

(** Modelled from the spec: collapsing white space; every maximal run
    becomes one space. *)
Fixpoint collapseFrom (inRun : bool) (l : list ascii) : list ascii :=
  match l with
  | [] => []
  | c :: rest =>
      if isSpace c
      then (if inRun then collapseFrom true rest
            else " "%char :: collapseFrom true rest)
      else c :: collapseFrom false rest
  end.

(** Modelled from the spec: the text normalization of section 4.1 ("trim,
    case-fold, collapse whitespace"), which no source file implements. *)
Definition normalizeText (text : string) : string :=
  string_of_list_ascii
    (collapseFrom false (List.map toLower (trim (list_ascii_of_string text)))).

(** Modelled from the spec: the cache key of section 4.1, "computed by
    normalizing text then hashing"; [hashText] itself is missing from the
    sources, and [digest] stands for the 256-bit hash. *)
Definition hashTextSpec (digest : string -> string) (text : string) : string :=
  digest (normalizeText text).

End EmbeddingCache.

(** ** Deck interchange

    The sources give the document layout and the steps of export and
    import, but no serializer; the functions below follow sections 3, 4.4,
    6 and 7 of the specification. *)

Module Sync.
Import JS.

(** A JSON document. *)
#[warnings="-register-all"]
Inductive json : Type :=
| JNull
| JBool (b : bool)
| JNumber (n : number)
| JString (s : string)
| JArray (items : list json)
| JObject (members : list (string * json)).

(** Modelled from the spec: a stored embedding, in the portable textual
    column or in the backend's native fixed-width vector column (section 2,
    VectorCodec).  In the sources these are the columns [content_embedding]
    (JSON array text) and [content_embedding_pgvector] of the cards table;
    the sources have no codec from either to a document, so each form is
    taken here by the numbers it holds, which is what the round-trip law
    speaks of.  [DeckJson] has the two columns as the sources store
    them. *)
Inductive StoredVector : Type :=
| PortableText (v : list number)
| NativeVector (v : list number).

(** Modelled from the spec: VectorCodec's reading of either representation
    as a sequence of numbers. *)
Definition toArray (sv : StoredVector) : list number :=
  match sv with
  | PortableText v => v
  | NativeVector v => v
  end.

(** Modelled from the spec: the deck fields of the InterchangeDocument
    (section 3). *)
Record Deck : Type := mkDeck {
  name : string;
  description : string
}.

(** Modelled from the spec: the card fields of a CardRecord (sections 3
    and 6). *)
Record Card : Type := mkCard {
  id : string;
  frontTitle : string;
  backContent : string;
  tags : list string;
  favorite : bool;
  contentEmbedding : option StoredVector
}.

(** Modelled from the spec: the members of one CardRecord of the wire
    format of section 6, the embedding inlined as an array of numbers or
    null. *)
Definition cardMembers (c : Card) : list (string * json) :=
  [ ("id", JString (id c));
    ("frontTitle", JString (frontTitle c));
    ("backContent", JString (backContent c));
    ("tags", JArray (List.map JString (tags c)));
    ("favorite", JBool (favorite c));
    ("embedding",
      match contentEmbedding c with
      | Some sv => JArray (List.map JNumber (toArray sv))
      | None => JNull
      end) ]%string.

(** Modelled from the spec: one CardRecord of the InterchangeDocument. *)
Definition serializeCard (c : Card) : json := JObject (cardMembers c).

(** Modelled from the spec: the members of the InterchangeDocument in the
    wire format of section 6, the cards in the order given. *)
Definition documentMembers (deck : Deck) (cards : list Card)
    : list (string * json) :=
  [ ("formatVersion", JNumber 1%float);
    ("name", JString (name deck));
    ("description", JString (description deck));
    ("cards", JArray (List.map serializeCard cards)) ]%string.

(** Modelled from the spec: [serialize(deck, cards) -> InterchangeDocument]
    (section 4.4); the serializer (utils/deckSerializer.ts) is missing
    from the sources. *)
Definition serialize (deck : Deck) (cards : list Card) : json :=
  JObject (documentMembers deck cards).

(** The value of a member of a JSON object, if present. *)
Fixpoint member (key : string) (members : list (string * json)) : option json :=
  match members with
  | [] => None
  | (k, v) :: rest => if String.eqb k key then Some v else member key rest
  end.

Definition asString (j : json) : option string :=
  match j with JString s => Some s | _ => None end.

Definition asBool (j : json) : option bool :=
  match j with JBool b => Some b | _ => None end.

Definition asNumber (j : json) : option number :=
  match j with JNumber n => Some n | _ => None end.

Definition asArrayOf {A : Type} (item : json -> option A) (j : json)
    : option (list A) :=
  match j with JArray items => mapM item items | _ => None end.

(** Modelled from the spec: the embedding member of a CardRecord may be
    missing or null, and the card then carries no embedding (section 4.4);
    a present embedding must be an array of numbers and is kept in the
    portable form. *)
Definition readEmbedding (members : list (string * json))
    : option (option StoredVector) :=
  match member "embedding" members with
  | None | Some JNull => Some None
  | Some j => v ← asArrayOf asNumber j; Some (Some (PortableText v))
  end.

(** Modelled from the spec: reading one CardRecord (section 6). *)
Definition deserializeCard (j : json) : option Card :=
  match j with
  | JObject members =>
      i ← member "id" members ≫= asString;
      ft ← member "frontTitle" members ≫= asString;
      bc ← member "backContent" members ≫= asString;
      tg ← member "tags" members ≫= asArrayOf asString;
      fav ← member "favorite" members ≫= asBool;
      emb ← readEmbedding members;
      Some {| id := i; frontTitle := ft; backContent := bc; tags := tg;
              favorite := fav; contentEmbedding := emb |}
  | _ => None
  end.

(** Modelled from the spec: reading the InterchangeDocument (section 6);
    [None] on a document outside the schema. *)
Definition parseDocument (doc : json) : option (Deck * list Card) :=
  match doc with
  | JObject members =>
      _ ← member "formatVersion" members ≫= asNumber;
      n ← member "name" members ≫= asString;
      d ← member "description" members ≫= asString;
      cs ← member "cards" members ≫= asArrayOf deserializeCard;
      Some ({| name := n; description := d |}, cs)
  | _ => None
  end.

(** *** The schema of section 6, as a check on the document alone *)

Definition isString (j : json) : bool :=
  match j with JString _ => true | _ => false end.

Definition isBool (j : json) : bool :=
  match j with JBool _ => true | _ => false end.

Definition isNumber (j : json) : bool :=
  match j with JNumber _ => true | _ => false end.

Definition isArrayOf (item : json -> bool) (j : json) : bool :=
  match j with JArray items => forallb item items | _ => false end.

(** The member [key] is present and passes [check]. *)
Definition hasMember (check : json -> bool) (key : string)
    (members : list (string * json)) : bool :=
  match member key members with
  | Some j => check j
  | None => false
  end.

(** Modelled from the spec: a CardRecord of section 6: strings [id],
    [frontTitle] and [backContent], an array of strings [tags], a boolean
    [favorite], and [embedding] an array of numbers, null, or left out. *)
Definition validCard (j : json) : bool :=
  match j with
  | JObject members =>
      hasMember isString "id" members &&
      hasMember isString "frontTitle" members &&
      hasMember isString "backContent" members &&
      hasMember (isArrayOf isString) "tags" members &&
      hasMember isBool "favorite" members &&
      match member "embedding" members with
      | None | Some JNull => true
      | Some e => isArrayOf isNumber e
      end
  | _ => false
  end.

(** Modelled from the spec: schema validation of a document on import
    (sections 6 and 7): a number [formatVersion], strings [name] and
    [description], and an array [cards] of valid CardRecords. *)
Definition validDocument (doc : json) : bool :=
  match doc with
  | JObject members =>
      hasMember isNumber "formatVersion" members &&
      hasMember isString "name" members &&
      hasMember isString "description" members &&
      hasMember (isArrayOf validCard) "cards" members
  | _ => false
  end.

(** Whether an optional value is present. *)
Definition isSome {A : Type} (o : option A) : bool :=
  match o with Some _ => true | None => false end.

(** Modelled from the spec: the error taxonomy of section 7, as far as
    import raises it. *)
Inductive SyncError : Type :=
| MalformedDocument.

(** Modelled from the spec: [deserialize(doc) -> (deck, cards)] (section
    4.4), failing with MalformedDocument (section 7); the deserializer is
    missing from the sources. *)
Definition deserialize (doc : json) : SyncError + (Deck * list Card) :=
  match parseDocument doc with
  | Some imported => inr imported
  | None => inl MalformedDocument
  end.

(** Modelled from the spec: the Vector invariant of section 3 on a card,
    for the model's dimensionality [L]: no embedding, or one of length [L]. *)
Definition embeddingOk (L : nat) (c : Card) : Prop :=
  match contentEmbedding c with
  | None => True
  | Some sv => length (toArray sv) = L
  end.

(** The card with its embedding, if any, in the portable form. *)
Definition portable (c : Card) : Card :=
  {| id := id c; frontTitle := frontTitle c; backContent := backContent c;
     tags := tags c; favorite := favorite c;
     contentEmbedding :=
       match contentEmbedding c with
       | Some sv => Some (PortableText (toArray sv))
       | None => None
       end |}.

(** Modelled from the spec: import into the local store (sections 4.5 and
    7): the document is validated as a whole before anything is written,
    and an accepted document replaces the target deck and its cards.  The
    import endpoint (POST /github/import) is only outlined in the sources. *)
Definition importDocument (deckId : string) (doc : json)
    (store : gmap string (Deck * list Card))
    : (SyncError + string) * gmap string (Deck * list Card) :=
  match deserialize doc with
  | inl err => (inl err, store)
  | inr imported => (inr deckId, <[deckId := imported]> store)
  end.

End Sync.

(** ** deck.json, as the sources lay it out

    The architecture document and the roadmap show the exported document
    ("deck.json Format") and outline the export and import endpoints;
    the serializer ([serialize_deck]) and the importer are not in the
    sources.  The functions below write and read the layout of that
    sample and follow the steps of the import outline. *)

Module DeckJson.
Import JS.
Import Sync.

(** The deck members of deck.json. *)
Record Deck : Type := mkDeck {
  name : string;
  description : string;
  version : string;
  created_at : string;
  updated_at : string
}.

(** A card: the members of a card record of deck.json, and the two
    embedding columns of the cards table: [content_embedding], JSON array
    text or NULL, and on PostgreSQL the vector column that a trigger
    derives from it. *)
Record Card : Type := mkCard {
  id : string;
  front_template : string;
  front_customizations : json;
  back_content : string;
  back_format : string;
  tags : list string;
  favorite : bool;
  content_embedding : option string;
  content_embedding_pgvector : option (list number)
}.

(** One card record of deck.json: id, front, back, tags, favorite. *)
Definition serializeCard (c : Card) : json :=
  JObject
    [ ("id", JString (id c));
      ("front",
        JObject [ ("template", JString (front_template c));
                  ("customizations", front_customizations c) ]);
      ("back",
        JObject [ ("content", JString (back_content c));
                  ("format", JString (back_format c)) ]);
      ("tags", JArray (List.map JString (tags c)));
      ("favorite", JBool (favorite c)) ]%string.

(** deck_json = serialize_deck(deck, cards): the document of the sample,
    the cards in the order given. *)
Definition serialize_deck (deck : Deck) (cards : list Card) : json :=
  JObject
    [ ("name", JString (name deck));
      ("description", JString (description deck));
      ("version", JString (version deck));
      ("created_at", JString (created_at deck));
      ("updated_at", JString (updated_at deck));
      ("cards", JArray (List.map serializeCard cards)) ]%string.

(** The members of a JSON object. *)
Definition asObject (j : json) : option (list (string * json)) :=
  match j with JObject members => Some members | _ => None end.

(** "Create all cards": the card a record of deck.json gives.  The
    embedding columns start empty: the embeddings are generated by the
    next step of the import. *)
Definition parseCard (j : json) : option Card :=
  members ← asObject j;
  i ← member "id" members ≫= asString;
  front ← member "front" members ≫= asObject;
  template ← member "template" front ≫= asString;
  customizations ← member "customizations" front;
  back ← member "back" members ≫= asObject;
  content ← member "content" back ≫= asString;
  fmt ← member "format" back ≫= asString;
  tg ← member "tags" members ≫= asArrayOf asString;
  fav ← member "favorite" members ≫= asBool;
  Some {| id := i; front_template := template;
          front_customizations := customizations;
          back_content := content; back_format := fmt;
          tags := tg; favorite := fav;
          content_embedding := None;
          content_embedding_pgvector := None |}.

(** "Parse deck.json". *)
Definition parseDeck (doc : json) : option (Deck * list Card) :=
  members ← asObject doc;
  n ← member "name" members ≫= asString;
  d ← member "description" members ≫= asString;
  v ← member "version" members ≫= asString;
  ca ← member "created_at" members ≫= asString;
  ua ← member "updated_at" members ≫= asString;
  cs ← member "cards" members ≫= asArrayOf parseCard;
  Some ({| name := n; description := d; version := v;
           created_at := ca; updated_at := ua |}, cs).

(** What POST /github/import leaves: the deck and the cards it created,
    and the cards handed to the background job that generates the
    embeddings. *)
Record Imported : Type := mkImported {
  deck : Deck;
  cards : list Card;
  embeddingJob : list string
}.

(** POST /github/import, after the repository contents were fetched:
    parse deck.json, create the deck, create all cards, generate
    embeddings (background job).  [None] when deck.json cannot be read. *)
Definition github_import (doc : json) : option Imported :=
  match parseDeck doc with
  | Some (d, cs) =>
      Some {| deck := d; cards := cs; embeddingJob := List.map id cs |}
  | None => None
  end.

(** The card with both embedding columns empty. *)
Definition withoutEmbedding (c : Card) : Card :=
  {| id := id c; front_template := front_template c;
     front_customizations := front_customizations c;
     back_content := back_content c; back_format := back_format c;
     tags := tags c; favorite := favorite c;
     content_embedding := None; content_embedding_pgvector := None |}.

End DeckJson.

(** ** Schema selection by platform *)

Module Migration.

Section WithSchema.

(** What a field of the schema holds is left open: the source shows the
    three groups with placeholder comments only. *)
Context {Field : Type}.

(** const schema = { universal: {...}, pgvector: {...}, sqlite_vss: {...} }:
    three objects, each a map from field names. *)
Record Schema : Type := mkSchema {
  universal : gmap string Field;
  pgvector : gmap string Field;
  sqlite_vss : gmap string Field
}.

(** One more [...source] in an object literal: the properties of [source]
    are copied over the ones collected so far. *)
Definition spread (collected source : gmap string Field) : gmap string Field :=
  source ∪ collected.

Variable schema : Schema.

(** The global flag [useVectorSearch], by its truthiness. *)
Variable useVectorSearch : bool.

(** function getSchema(platform) *)
Definition getSchema (platform : string) : gmap string Field :=
  spread
    (spread
       (spread ∅ (universal schema))
       (if String.eqb platform "web" then pgvector schema else ∅))
    (if String.eqb platform "desktop" && useVectorSearch
     then sqlite_vss schema else ∅).

End WithSchema.

Arguments Schema : clear implicits.

End Migration.

(** ** Example data for the concrete checks *)

Module Fixtures.
Import JS Search.
Local Open Scope float_scope.

(** An embedding model known on one query. *)
Definition exampleEmbedding (text : string) : list number :=
  if String.eqb text "bread" then [1; 0] else [].

(** [JSON.parse] on the embedding texts used below. *)
Definition exampleParse (text : string) : list number :=
  if String.eqb text "[1,0]" then [1; 0]
  else if String.eqb text "[1]" then [1]
  else if String.eqb text "[1,0,0]" then [1; 0; 0]
  else if String.eqb text "[0,1]" then [0; 1]
  else if String.eqb text "[0,0]" then [0; 0]
  else [].

Definition cardA : Card :=
  {| id := "a"; back_content := "how to bake bread";
     content_embedding := "[1,0]" |}.

Definition cardB : Card :=
  {| id := "b"; back_content := "baking bread at home";
     content_embedding := "[1,0]" |}.

Definition cardShort : Card :=
  {| id := "s"; back_content := "embedded by a smaller model";
     content_embedding := "[1]" |}.

Definition cardLong : Card :=
  {| id := "l"; back_content := "embedded by a larger model";
     content_embedding := "[1,0,0]" |}.

Definition cardZero : Card :=
  {| id := "z"; back_content := ""; content_embedding := "[0,0]" |}.

(** A nonzero number whose square underflows to zero: 2^-600. *)
Definition tiny : number := 0x1p-600.

(** The default threshold, 0.6 as a binary64 number. *)
Definition defaultThreshold : number := 0x1.3333333333333p-1.

(** Pairwise distinct texts: "", "a", "aa", ... *)
Fixpoint textOfSize (n : nat) : string :=
  match n with
  | O => EmptyString
  | S n' => String "a" (textOfSize n')
  end.

(** A hash that keeps its argument. *)
Definition plainHash (text : string) : string := text.

(** One [cacheEmbedding] per text, all at clock reading 0. *)
Definition putAll (texts : list string) : list EmbeddingCache.Call :=
  List.map (fun text => EmbeddingCache.Put 0 text []) texts.

(** A heap with two card objects and the array [cards] of both. *)
Definition exampleHeap : gmap SearchHeap.loc SearchHeap.object :=
  <[3%positive := SearchHeap.OCards [1%positive; 2%positive]]>
    (<[2%positive := SearchHeap.OCard cardA]>
       (<[1%positive := SearchHeap.OCard cardB]> ∅)).

End Fixtures.

(** ** Example decks and documents *)

Module SyncFixtures.
Import JS Sync.
Local Open Scope float_scope.

Definition breadDeck : Deck :=
  {| name := "Baking"; description := "Bread and sourdough" |}.

(** A card embedded in the backend's native form. *)
Definition sourdoughCard : Card :=
  {| id := "card-2"; frontTitle := "Sourdough";
     backContent := "sourdough baking tips";
     tags := ["baking"]; favorite := false;
     contentEmbedding := Some (NativeVector [0; 1]) |}%string.

(** Three cards: one embedded in the portable form, one in the native
    form, one without an embedding. *)
Definition breadCards : list Card :=
  [ {| id := "card-1"; frontTitle := "Bread"; backContent := "how to bake bread";
       tags := ["baking"; "bread"]; favorite := true;
       contentEmbedding := Some (PortableText [1; 0]) |};
    sourdoughCard;
    {| id := "card-3"; frontTitle := "Taxes";
       backContent := "quarterly tax filing";
       tags := []; favorite := false; contentEmbedding := None |} ]%string.

(** A document whose first card record is complete and whose second one
    lacks its backContent. *)
Definition partlyValidDocument : json :=
  JObject
    [ ("formatVersion", JNumber 1);
      ("name", JString "Baking");
      ("description", JString "");
      ("cards",
        JArray
          [ JObject
              [ ("id", JString "card-1"); ("frontTitle", JString "Bread");
                ("backContent", JString "how to bake bread");
                ("tags", JArray [JString "baking"]);
                ("favorite", JBool true); ("embedding", JNull) ];
            JObject
              [ ("id", JString "card-2"); ("frontTitle", JString "Sourdough");
                ("tags", JArray []); ("favorite", JBool false) ] ]) ]%string.

(** A local store that already holds a deck. *)
Definition localStore : gmap string (Deck * list Card) :=
  {[ "deck-1"%string := (breadDeck, breadCards) ]}.

End SyncFixtures.

(** ** Example cards with distinct scores *)

Module RankingFixtures.
Import JS Search.
Local Open Scope float_scope.

(** [JSON.parse] on the embedding texts of the cards below; the literal
    1e999 is beyond the binary64 range and is read as Infinity. *)
Definition rankedParse (text : string) : list number :=
  if String.eqb text "[4,3]" then [4; 3]
  else if String.eqb text "[3,4]" then [3; 4]
  else if String.eqb text "[1e999,0]" then [infinity; 0]
  else Fixtures.exampleParse text.

(** Scores 0.8 against the query vector [1, 0]. *)
Definition cardSteep : Card :=
  {| id := "p"; back_content := "bread oven temperatures";
     content_embedding := "[4,3]" |}.

(** Scores 0.6 against the query vector [1, 0]. *)
Definition cardFlat : Card :=
  {| id := "f"; back_content := "flatbread without an oven";
     content_embedding := "[3,4]" |}.

(** A stored embedding with an overflowing component. *)
Definition cardOverflow : Card :=
  {| id := "o"; back_content := "corrupted embedding";
     content_embedding := "[1e999,0]" |}.

(** An embedding model that is loaded and answers on one query, and
    fails on every other text. *)
Definition loadedEmbedding (text : string) : option (list number) :=
  if String.eqb text "bread" then Some [1; 0] else None.

(** A [JSON.parse] that reads two embedding texts and throws on every
    other text. *)
Definition strictParse (text : string) : option (list number) :=
  if String.eqb text "[1,0]" then Some [1; 0]
  else if String.eqb text "[4,3]" then Some [4; 3]
  else None.

End RankingFixtures.

(** ** An example deck in the layout of deck.json *)

Module DeckJsonFixtures.
Import JS Sync DeckJson.
Local Open Scope float_scope.

Definition promptDeck : Deck :=
  {| name := "Image Prompts";
     description := "My image generation prompts";
     version := "1.0";
     created_at := "2026-02-05T00:00:00Z";
     updated_at := "2026-02-05T00:00:00Z" |}.

(** The card of the sample, embedded: the text column holds the JSON
    array, the vector column its numbers. *)
Definition portraitCard : Card :=
  {| id := "card-1";
     front_template := "pokemon";
     front_customizations :=
       JObject [ ("title", JString "Photorealistic Portrait");
                 ("colors", JObject [("primary", JString "#FF6B35")]) ];
     back_content := "A detailed portrait of...";
     back_format := "markdown";
     tags := ["image-gen"; "portrait"];
     favorite := true;
     content_embedding := Some "[1,0]";
     content_embedding_pgvector := Some [1; 0] |}%string.

(** The document of the sample, member by member. *)
Definition sampleDocument : json :=
  JObject
    [ ("name", JString "Image Prompts");
      ("description", JString "My image generation prompts");
      ("version", JString "1.0");
      ("created_at", JString "2026-02-05T00:00:00Z");
      ("updated_at", JString "2026-02-05T00:00:00Z");
      ("cards",
        JArray
          [ JObject
              [ ("id", JString "card-1");
                ("front",
                  JObject
                    [ ("template", JString "pokemon");
                      ("customizations",
                        JObject
                          [ ("title", JString "Photorealistic Portrait");
                            ("colors",
                              JObject [("primary", JString "#FF6B35")]) ]) ]);
                ("back",
                  JObject
                    [ ("content", JString "A detailed portrait of...");
                      ("format", JString "markdown") ]);
                ("tags", JArray [JString "image-gen"; JString "portrait"]);
                ("favorite", JBool true) ] ]) ]%string.

End DeckJsonFixtures.

(** * Part II: properties *)

(** ** Binary64 arithmetic: rounding keeps the sign of a difference *)

Module Binary64Facts.
Import Binary64.
Local Open Scope Z_scope.

Lemma digits2_pos_size p : digits2_pos p = Pos.size p.
Proof. induction p; simpl; congruence. Qed.

Lemma digits2_pos_log2 p : Zpos (digits2_pos p) = Z.log2 (Zpos p) + 1.
Proof. rewrite digits2_pos_size. destruct p; simpl; lia. Qed.

Lemma shr_1_m mrs : 0 <= shr_m mrs -> shr_m (shr_1 mrs) = Z.div2 (shr_m mrs).
Proof.
  destruct mrs as [m r s]; simpl. intros Hm.
  destruct m as [|p|p]; try lia; [reflexivity|].
  destruct p; reflexivity.
Qed.

Lemma iter_shr_1_m p : forall mrs, 0 <= shr_m mrs ->
  shr_m (SpecFloat.iter_pos shr_1 p mrs) = Z.shiftr (shr_m mrs) (Zpos p).
Proof.
  induction p as [p IH|p IH|]; intros mrs Hm; simpl SpecFloat.iter_pos.
  - assert (H1 : 0 <= shr_m (shr_1 mrs)).
    { rewrite shr_1_m by assumption. rewrite Z.div2_spec.
      now apply Z.shiftr_nonneg. }
    assert (H2 : 0 <= shr_m (SpecFloat.iter_pos shr_1 p (shr_1 mrs))).
    { rewrite IH by assumption. now apply Z.shiftr_nonneg. }
    rewrite IH, IH, shr_1_m, Z.div2_spec by assumption.
    rewrite !Z.shiftr_shiftr by lia. f_equal. lia.
  - assert (H2 : 0 <= shr_m (SpecFloat.iter_pos shr_1 p mrs)).
    { rewrite IH by assumption. now apply Z.shiftr_nonneg. }
    rewrite IH, IH by assumption.
    rewrite !Z.shiftr_shiftr by lia. f_equal. lia.
  - rewrite shr_1_m, Z.div2_spec by assumption. reflexivity.
Qed.

(** Shifting right by no more than the position of the leading bit leaves
    a positive mantissa. *)
Lemma shr_positive mrs e n :
  0 < shr_m mrs -> n <= Z.log2 (shr_m mrs) ->
  0 < shr_m (fst (shr mrs e n)).
Proof.
  intros Hm Hn. destruct n as [|p|p]; simpl; try assumption.
  rewrite iter_shr_1_m by lia.
  assert (H0 : 0 <= Z.shiftr (shr_m mrs) (Z.pos p))
    by (apply Z.shiftr_nonneg; lia).
  assert (H1 : Z.shiftr (shr_m mrs) (Z.pos p) <> 0).
  { rewrite Z.shiftr_eq_0_iff. lia. }
  lia.
Qed.

Lemma shr_exponent mrs e n : snd (shr mrs e n) = e + Z.max n 0.
Proof. destruct n; simpl; lia. Qed.

Lemma shr_m_of_loc m l : shr_m (shr_record_of_loc m l) = m.
Proof. destruct l as [|[]]; reflexivity. Qed.

Lemma iter_xO m d : Zpos (Pos.iter xO m d) = Zpos m * 2 ^ Zpos d.
Proof.
  induction d as [|d IH] using Pos.peano_ind.
  - simpl. lia.
  - rewrite Pos.iter_succ, Pos2Z.inj_succ, Z.pow_succ_r by lia.
    rewrite Pos2Z.inj_xO, IH. lia.
Qed.

Lemma shl_align_value m e e' :
  e' <= e -> Zpos (fst (shl_align m e e')) = Zpos m * 2 ^ (e - e').
Proof.
  intros Hle. unfold shl_align.
  destruct (e' - e) as [|d|d] eqn:Hd; simpl fst; try lia.
  - replace (e - e') with 0 by lia. lia.
  - rewrite iter_xO. f_equal. f_equal. lia.
Qed.

Section Format.

Variables prec emax : Z.
Hypothesis prec_pos : 0 < prec.

Lemma fexp_ge_emin e : SpecFloat.emin prec emax <= fexp prec emax e.
Proof. unfold fexp. lia. Qed.

Lemma shr_fexp_positive m e l :
  0 < m -> SpecFloat.emin prec emax <= e ->
  0 < shr_m (fst (shr_fexp prec emax m e l)) /\
  SpecFloat.emin prec emax <= snd (shr_fexp prec emax m e l).
Proof.
  intros Hm He. unfold shr_fexp. split.
  - apply shr_positive; rewrite shr_m_of_loc; [assumption|].
    destruct m as [|p|p]; try lia. simpl Zdigits2.
    rewrite digits2_pos_log2. unfold fexp.
    pose proof (Z.log2_nonneg (Z.pos p)). lia.
  - rewrite shr_exponent. lia.
Qed.

Lemma round_nearest_even_positive m l : 0 < m -> 0 < round_nearest_even m l.
Proof.
  intros Hm. destruct l as [|[]]; simpl; try lia.
  destruct (Z.even m); lia.
Qed.

(** Rounding a positive mantissa at an exponent inside the format never
    gives a zero: the result is a nonzero number of the sign it was given. *)
Lemma binary_round_aux_signed s m e l :
  0 < m -> SpecFloat.emin prec emax <= e ->
  signed_nonzero s (binary_round_aux prec emax s m e l).
Proof.
  intros Hm He. unfold binary_round_aux.
  destruct (shr_fexp_positive m e l Hm He) as [H1 H2].
  destruct (shr_fexp prec emax m e l) as [mrs' e']. simpl in H1, H2.
  pose proof (round_nearest_even_positive
                (shr_m mrs') (loc_of_shr_record mrs') H1) as H3.
  destruct (shr_fexp_positive _ e' loc_Exact H3 H2) as [H4 _].
  destruct (shr_fexp prec emax _ e' loc_Exact) as [mrs'' e'']. simpl in H4.
  destruct (shr_m mrs''); try lia.
  destruct (e'' <=? emax - prec); reflexivity.
Qed.

Lemma binary_round_signed s m e :
  SpecFloat.emin prec emax <= e ->
  signed_nonzero s (binary_round prec emax s m e).
Proof.
  intros He. unfold binary_round.
  destruct (shl_align m e _) as [mz ez] eqn:Halign.
  apply binary_round_aux_signed; [lia|].
  unfold shl_align in Halign.
  destruct (_ - e) eqn:Hd; inversion Halign; subst; try assumption.
  apply fexp_ge_emin.
Qed.

Lemma binary_normalize_sign d e :
  SpecFloat.emin prec emax <= e ->
  SFltb (S754_zero false) (binary_normalize prec emax d e false) = (0 <? d).
Proof.
  intros He. destruct d as [|m|m]; simpl binary_normalize.
  - reflexivity.
  - pose proof (binary_round_signed false m e He) as H.
    destruct (binary_round prec emax false m e); simpl in H;
      try contradiction; subst; reflexivity.
  - pose proof (binary_round_signed true m e He) as H.
    destruct (binary_round prec emax true m e); simpl in H;
      try contradiction; subst; reflexivity.
Qed.

Lemma bounded_facts m e :
  bounded prec emax m e = true ->
  (SpecFloat.emin prec emax <= e) /\
  (Zpos m < 2 ^ prec) /\
  (SpecFloat.emin prec emax < e -> 2 ^ (prec - 1) <= Zpos m).
Proof.
  unfold bounded, canonical_mantissa, fexp. intros H.
  apply andb_true_iff in H. destruct H as [H _].
  apply Z.eqb_eq in H. rewrite digits2_pos_log2 in H.
  pose proof (Z.log2_spec (Zpos m) ltac:(lia)) as [Hlo Hhi].
  pose proof (Z.log2_nonneg (Zpos m)) as Hnn.
  split; [lia|]. split.
  - apply Z.lt_le_trans with (1 := Hhi).
    apply Z.pow_le_mono_r; lia.
  - intros Hgt. apply Z.le_trans with (2 := Hlo).
    apply Z.pow_le_mono_r; lia.
Qed.

Lemma aligned_lt m1 e1 m2 e2 :
  bounded prec emax m1 e1 = true -> bounded prec emax m2 e2 = true ->
  e1 < e2 -> Zpos m1 < Zpos m2 * 2 ^ (e2 - e1).
Proof.
  intros H1 H2 Hlt.
  destruct (bounded_facts _ _ H1) as (He1 & Hm1 & _).
  destruct (bounded_facts _ _ H2) as (He2 & _ & Hm2).
  specialize (Hm2 ltac:(lia)).
  assert (Hp : 2 ^ 1 <= 2 ^ (e2 - e1)) by (apply Z.pow_le_mono_r; lia).
  assert (Hq : 2 ^ prec = 2 ^ (prec - 1) * 2).
  { replace prec with (Z.succ (prec - 1)) at 1 by lia.
    rewrite Z.pow_succ_r by lia. lia. }
  change (2 ^ 1) with 2 in Hp. nia.
Qed.

(** On numbers of the format, [SFcompare] compares the mantissas once both
    are aligned on the smaller exponent. *)
Lemma SFcompare_aligned s1 m1 e1 s2 m2 e2 :
  bounded prec emax m1 e1 = true -> bounded prec emax m2 e2 = true ->
  let ez := Z.min e1 e2 in
  SFcompare (S754_finite s1 m1 e1) (S754_finite s2 m2 e2) =
  Some (cond_Zopp s1 (Zpos (fst (shl_align m1 e1 ez))) ?=
        cond_Zopp s2 (Zpos (fst (shl_align m2 e2 ez)))).
Proof.
  intros H1 H2 ez. subst ez.
  rewrite !shl_align_value by lia.
  assert (P1 : 0 < 2 ^ (e1 - Z.min e1 e2)) by (apply Z.pow_pos_nonneg; lia).
  assert (P2 : 0 < 2 ^ (e2 - Z.min e1 e2)) by (apply Z.pow_pos_nonneg; lia).
  unfold SFcompare. f_equal.
  destruct (Z.compare_spec e1 e2) as [Heq|Hlt|Hgt].
  - subst e2. rewrite Z.min_id, Z.sub_diag in *. simpl Z.pow.
    rewrite !Z.mul_1_r.
    destruct s1, s2; simpl cond_Zopp; reflexivity.
  - pose proof (aligned_lt _ _ _ _ H1 H2 Hlt) as Hal.
    rewrite Z.min_l in * by lia. rewrite Z.sub_diag. simpl (2 ^ 0).
    rewrite Z.mul_1_r.
    destruct s1, s2; cbv [cond_Zopp]; symmetry.
    + apply Z.compare_gt_iff. lia.
    + apply Z.compare_lt_iff. lia.
    + apply Z.compare_gt_iff. lia.
    + apply Z.compare_lt_iff. lia.
  - pose proof (aligned_lt _ _ _ _ H2 H1 ltac:(lia)) as Hal.
    rewrite Z.min_r in * by lia. rewrite Z.sub_diag. simpl (2 ^ 0).
    rewrite Z.mul_1_r.
    destruct s1, s2; cbv [cond_Zopp]; symmetry.
    + apply Z.compare_lt_iff. lia.
    + apply Z.compare_lt_iff. lia.
    + apply Z.compare_gt_iff. lia.
    + apply Z.compare_gt_iff. lia.
Qed.

(** [y - x] is positive exactly when [x < y]. *)
Lemma SFsub_positive x y :
  SpecFloat.valid_binary prec emax x = true ->
  SpecFloat.valid_binary prec emax y = true ->
  SFltb (S754_zero false) (SFsub prec emax y x) = SFltb x y.
Proof.
  intros Hx Hy.
  destruct x as [sx|sx| |sx mx ex], y as [sy|sy| |sy my ey];
    try (destruct sx; try destruct sy; reflexivity);
    try (destruct sy; reflexivity); try reflexivity.
  simpl in Hx, Hy. cbv beta iota zeta delta [SFsub].
  rewrite binary_normalize_sign.
  2:{ destruct (bounded_facts _ _ Hx) as [? _].
      destruct (bounded_facts _ _ Hy) as [? _]. lia. }
  unfold SFltb. rewrite (SFcompare_aligned _ _ _ _ _ _ Hx Hy).
  rewrite (Z.min_comm ey ex).
  set (a := cond_Zopp sx _). set (b := cond_Zopp sy _). clearbody a b.
  destruct (Z.ltb_spec 0 (b - a)), (Z.compare_spec a b);
    try reflexivity; lia.
Qed.

End Format.

(** *** Order facts that need no validity *)

Lemma SFcompare_refl x : x <> S754_nan -> SFcompare x x = Some Eq.
Proof.
  destruct x as [s|s| |s m e]; intros Hx; try congruence; simpl.
  - reflexivity.
  - destruct s; reflexivity.
  - rewrite Z.compare_refl, Pos.compare_cont_refl. destruct s; reflexivity.
Qed.

Lemma SFcompare_swap x y :
  SFcompare y x = option_map CompOpp (SFcompare x y).
Proof.
  destruct x as [sx|sx| |sx mx ex], y as [sy|sy| |sy my ey];
    try reflexivity;
    try (destruct sx; try destruct sy; reflexivity);
    try (destruct sy; reflexivity).
  unfold SFcompare.
  assert (Hm : Pos.compare_cont Eq my mx = CompOpp (Pos.compare_cont Eq mx my)).
  { rewrite Pos.compare_cont_antisym. reflexivity. }
  rewrite (Z.compare_antisym ex ey), Hm.
  destruct sx, sy, (ex ?= ey), (Pos.compare_cont Eq mx my); reflexivity.
Qed.

Lemma SFcompare_nan_iff x y :
  SFcompare x y = None <-> x = S754_nan \/ y = S754_nan.
Proof.
  destruct x as [sx|sx| |sx mx ex], y as [sy|sy| |sy my ey]; simpl;
    split; intros H; try discriminate; auto;
    try (destruct H; discriminate);
    try (destruct sx; discriminate);
    try (destruct sy; discriminate).
Qed.

Lemma SFcompare_Eq_inv x y :
  SFcompare x y = Some Eq ->
  match x, y with
  | S754_zero _, S754_zero _ => True
  | S754_infinity s1, S754_infinity s2 => s1 = s2
  | S754_finite s1 m1 e1, S754_finite s2 m2 e2 => s1 = s2 /\ m1 = m2 /\ e1 = e2
  | _, _ => False
  end.
Proof.
  destruct x as [sx|sx| |sx mx ex], y as [sy|sy| |sy my ey]; simpl;
    try discriminate; auto;
    try (destruct sx; discriminate); try (destruct sy; discriminate).
  - destruct sx, sy; (discriminate || reflexivity).
  - destruct sx, sy; try discriminate;
      destruct (Z.compare_spec ex ey); try discriminate;
      change (Pos.compare_cont Eq mx my) with (Pos.compare mx my);
      destruct (Pos.compare_spec mx my); try discriminate; auto.
Qed.

Lemma SFcompare_Eq_trans x y s :
  SFcompare x s = Some Eq -> SFcompare y s = Some Eq -> SFcompare x y = Some Eq.
Proof.
  intros H1 H2. apply SFcompare_Eq_inv in H1, H2.
  destruct x as [sx|sx| |sx mx ex], s as [ss|ss| |ss ms es]; try contradiction;
  destruct y as [sy|sy| |sy my ey]; try contradiction.
  - reflexivity.
  - subst. destruct ss; reflexivity.
  - destruct H1 as (-> & -> & ->), H2 as (-> & -> & ->). simpl.
    rewrite Z.compare_refl, Pos.compare_cont_refl. destruct ss; reflexivity.
Qed.

Lemma SFleb_trans x y z :
  SFleb x y = true -> SFleb y z = true -> SFleb x z = true.
Proof.
  unfold SFleb.
  destruct x as [sx|sx| |sx mx ex], y as [sy|sy| |sy my ey], z as [sz|sz| |sz mz ez];
    simpl;
    repeat match goal with s : bool |- _ => destruct s end;
    simpl; try discriminate; try reflexivity.
  all: change (Pos.compare_cont Eq) with Pos.compare.
  all: destruct (Z.compare_spec ex ey); try discriminate;
       destruct (Z.compare_spec ey ez); try discriminate;
       destruct (Z.compare_spec ex ez); try reflexivity; try lia.
  all: destruct (Pos.compare_spec mx my); simpl; try discriminate;
       destruct (Pos.compare_spec my mz); simpl; try discriminate;
       destruct (Pos.compare_spec mx mz); simpl; try reflexivity; try lia.
Qed.

End Binary64Facts.

(** ** JavaScript numbers: comparison, subtraction, NaN *)

Module NumberFacts.
Import JS Binary64 Binary64Facts.
Local Open Scope float_scope.

Lemma prec_positive : (0 < prec)%Z.
Proof. reflexivity. Qed.

Lemma nan_of_spec x : Prim2SF x = S754_nan -> x = nan.
Proof. intros H. apply Prim2SF_inj. rewrite H. reflexivity. Qed.

Lemma spec_of_not_nan x : x <> nan -> Prim2SF x <> S754_nan.
Proof. intros H E. apply H, nan_of_spec, E. Qed.

(** The comparator [b - a] is positive exactly when [a < b]. *)
Lemma ltb_sub x y : (0 <? y - x) = (x <? y).
Proof.
  rewrite !ltb_spec, sub_spec.
  change (Prim2SF 0) with (S754_zero false).
  apply (SFsub_positive prec emax prec_positive); apply Prim2SF_valid.
Qed.

Lemma ltb_nan_r t : (t <? nan) = false.
Proof.
  rewrite ltb_spec. change (Prim2SF nan) with S754_nan.
  unfold SFltb. destruct (Prim2SF t) as [[]|[]| |[]]; reflexivity.
Qed.

Lemma ltb_not_nan t x : (t <? x) = true -> x <> nan.
Proof. intros H ->. rewrite ltb_nan_r in H. discriminate. Qed.

Lemma is_nan_true x : is_nan x = true -> x = nan.
Proof.
  unfold is_nan. rewrite FloatAxioms.eqb_spec. unfold SFeqb. intros H.
  apply nan_of_spec.
  destruct (Prim2SF x) eqn:E; try reflexivity;
    rewrite SFcompare_refl in H by discriminate; discriminate.
Qed.

(** Mapping a NaN outcome to +0 does not change whether the outcome is
    positive. *)
Lemma SortCompare_positive {A : Type} (f : A -> A -> number) x y :
  (0 <? SortCompare f x y) = (0 <? f x y).
Proof.
  unfold SortCompare. destruct (is_nan (f x y)) eqn:E; [|reflexivity].
  apply is_nan_true in E. rewrite E, ltb_nan_r. reflexivity.
Qed.

Lemma ltb_leb x y : (x <? y) = true -> (x <=? y) = true.
Proof.
  rewrite ltb_spec, leb_spec. unfold SFltb, SFleb.
  destruct (SFcompare _ _) as [[]|]; congruence.
Qed.

Lemma not_ltb_leb x y :
  x <> nan -> y <> nan -> (x <? y) = false -> (y <=? x) = true.
Proof.
  intros Hx Hy. rewrite ltb_spec, leb_spec. unfold SFltb, SFleb.
  rewrite (SFcompare_swap (Prim2SF x) (Prim2SF y)).
  destruct (SFcompare (Prim2SF x) (Prim2SF y)) as [[]|] eqn:E;
    simpl; try congruence.
  apply SFcompare_nan_iff in E.
  destruct E as [E|E]; apply nan_of_spec in E; congruence.
Qed.

Lemma leb_trans x y z :
  (x <=? y) = true -> (y <=? z) = true -> (x <=? z) = true.
Proof. rewrite !leb_spec. apply SFleb_trans. Qed.

(** Two numbers equal to a third are not strictly ordered. *)
Lemma eqb_not_ltb x y s :
  (x =? s) = true -> (y =? s) = true -> (x <? y) = false.
Proof.
  rewrite !FloatAxioms.eqb_spec, ltb_spec. unfold SFeqb, SFltb. intros Hx Hy.
  rewrite (SFcompare_Eq_trans (Prim2SF x) (Prim2SF y) (Prim2SF s)).
  - reflexivity.
  - destruct (SFcompare (Prim2SF x) (Prim2SF s)) as [[]|]; congruence.
  - destruct (SFcompare (Prim2SF y) (Prim2SF s)) as [[]|]; congruence.
Qed.

Lemma eqb_refl x : x <> nan -> (x =? x) = true.
Proof.
  intros Hx. rewrite FloatAxioms.eqb_spec. unfold SFeqb.
  rewrite SFcompare_refl; [reflexivity|]. now apply spec_of_not_nan.
Qed.

Lemma leb_refl x : x <> nan -> (x <=? x) = true.
Proof.
  intros Hx. rewrite leb_spec. unfold SFleb.
  rewrite SFcompare_refl; [reflexivity|]. now apply spec_of_not_nan.
Qed.

Lemma leb_antisym x y :
  (x <=? y) = true -> (y <=? x) = true -> (x =? y) = true.
Proof.
  rewrite !leb_spec, FloatAxioms.eqb_spec. unfold SFleb, SFeqb.
  rewrite (SFcompare_swap (Prim2SF x) (Prim2SF y)).
  destruct (SFcompare (Prim2SF x) (Prim2SF y)) as [[]|]; simpl; congruence.
Qed.

(** *** NaN is absorbing *)

Lemma add_nan_l y : nan + y = nan.
Proof.
  apply Prim2SF_inj. rewrite add_spec. change (Prim2SF nan) with S754_nan.
  reflexivity.
Qed.

Lemma add_nan_r x : x + nan = nan.
Proof.
  apply Prim2SF_inj. rewrite add_spec. change (Prim2SF nan) with S754_nan.
  destruct (Prim2SF x); reflexivity.
Qed.

Lemma mul_nan_r x : x * nan = nan.
Proof.
  apply Prim2SF_inj. rewrite mul_spec. change (Prim2SF nan) with S754_nan.
  destruct (Prim2SF x); reflexivity.
Qed.

Lemma div_nan_l y : nan / y = nan.
Proof.
  apply Prim2SF_inj. rewrite div_spec. change (Prim2SF nan) with S754_nan.
  reflexivity.
Qed.

(** *** Zeros: the numbers [x] with [x == 0], of either sign *)

(** Case analysis on the specification values of two floats, closing the
    cases where a hypothesis is absurd. *)
Ltac spec_cases x y :=
  destruct (Prim2SF x) as [[]|[]| |[]], (Prim2SF y) as [[]|[]| |[]];
  simpl; intros; try contradiction.

Lemma zn_zero : zn 0.
Proof. exact I. Qed.

Lemma zn_nan : zn nan.
Proof. exact I. Qed.

Lemma zn_of_eqb x : (x =? 0) = true -> zn x.
Proof.
  unfold zn. rewrite FloatAxioms.eqb_spec. change (Prim2SF 0) with (S754_zero false).
  unfold SFeqb. destruct (Prim2SF x) as [[]|[]| |[]]; simpl;
    try discriminate; auto.
Qed.

Lemma zn_add x y : zn x -> zn y -> zn (x + y).
Proof.
  unfold zn. rewrite add_spec. unfold SF64add.
  spec_cases x y; exact I.
Qed.

Lemma zn_mul_l x y : zn x -> zn (x * y).
Proof.
  unfold zn. rewrite mul_spec. unfold SF64mul.
  spec_cases x y; exact I.
Qed.

Lemma zn_mul_r x y : zn y -> zn (x * y).
Proof.
  unfold zn. rewrite mul_spec. unfold SF64mul.
  spec_cases x y; exact I.
Qed.

Lemma zn_sqrt x : zn x -> zn (sqrt x).
Proof.
  unfold zn. rewrite sqrt_spec. unfold SF64sqrt.
  destruct (Prim2SF x) as [[]|[]| |[]]; simpl; intros;
    try contradiction; exact I.
Qed.

(** 0/0, 0/NaN, NaN/0 and NaN/NaN are all NaN. *)
Lemma zn_div x y : zn x -> zn y -> x / y = nan.
Proof.
  unfold zn. intros Hx Hy. apply nan_of_spec. rewrite div_spec.
  revert Hx Hy. spec_cases x y; reflexivity.
Qed.

End NumberFacts.

(** ** JavaScript numbers: more order and arithmetic facts *)

Module ArithFacts.
Import JS Binary64 Binary64Sign Binary64Facts NumberFacts.
Local Open Scope float_scope.

Lemma mul_comm x y : x * y = y * x.
Proof.
  apply Prim2SF_inj. rewrite !mul_spec. unfold SF64mul, SFmul.
  destruct (Prim2SF x) as [sx|sx| |sx mx ex], (Prim2SF y) as [sy|sy| |sy my ey];
    try reflexivity; try (rewrite xorb_comm; reflexivity).
  rewrite xorb_comm, Pos.mul_comm, Z.add_comm. reflexivity.
Qed.

Lemma ltb_nan_l x : (nan <? x) = false.
Proof. rewrite ltb_spec. reflexivity. Qed.

Lemma ltb_not_nan_l t x : (t <? x) = true -> t <> nan.
Proof. intros H ->. rewrite ltb_nan_l in H. discriminate. Qed.

Lemma SFleb_ltb_trans x y z :
  SFleb x y = true -> SFltb y z = true -> SFltb x z = true.
Proof.
  unfold SFleb, SFltb.
  destruct x as [sx|sx| |sx mx ex], y as [sy|sy| |sy my ey], z as [sz|sz| |sz mz ez];
    simpl;
    repeat match goal with s : bool |- _ => destruct s end;
    simpl; try discriminate; try reflexivity.
  all: change (Pos.compare_cont Eq) with Pos.compare.
  all: destruct (Z.compare_spec ex ey); try discriminate;
       destruct (Z.compare_spec ey ez); try discriminate;
       destruct (Z.compare_spec ex ez); try reflexivity; try lia.
  all: destruct (Pos.compare_spec mx my); simpl; try discriminate;
       destruct (Pos.compare_spec my mz); simpl; try discriminate;
       destruct (Pos.compare_spec mx mz); simpl; try reflexivity; try lia.
Qed.

Lemma leb_ltb_trans x y z :
  (x <=? y) = true -> (y <? z) = true -> (x <? z) = true.
Proof. rewrite leb_spec, !ltb_spec. apply SFleb_ltb_trans. Qed.

Lemma eqb_trans_sym x y s :
  (x =? s) = true -> (y =? s) = true -> (x =? y) = true.
Proof.
  rewrite !FloatAxioms.eqb_spec. unfold SFeqb. intros Hx Hy.
  rewrite (SFcompare_Eq_trans (Prim2SF x) (Prim2SF y) (Prim2SF s)).
  - reflexivity.
  - destruct (SFcompare (Prim2SF x) (Prim2SF s)) as [[]|]; congruence.
  - destruct (SFcompare (Prim2SF y) (Prim2SF s)) as [[]|]; congruence.
Qed.

(** A threshold that is NaN or +infinity is below no number. *)
Lemma ltb_posinf_or_nan t x : posinf_or_nan (Prim2SF t) -> (t <? x) = false.
Proof.
  rewrite ltb_spec. unfold SFltb.
  destruct (Prim2SF t) as [[]|[]| |[]], (Prim2SF x) as [[]|[]| |[]];
    simpl; intros H; try contradiction; try discriminate; reflexivity.
Qed.

(** A zero or NaN is above no non-negative threshold. *)
Lemma ltb_zn t x : (0 <=? t) = true -> zn x -> (t <? x) = false.
Proof.
  rewrite leb_spec, ltb_spec. change (Prim2SF 0) with (S754_zero false).
  unfold zn, SFleb, SFltb.
  destruct (Prim2SF t) as [[]|[]| |[]], (Prim2SF x) as [[]|[]| |[]];
    simpl; intros H1 H2; try contradiction; try discriminate; reflexivity.
Qed.

(** [!Number.isFinite(x)]: an infinity or NaN. *)
Lemma is_finite_false x : is_finite x = false -> inf_or_nan (Prim2SF x).
Proof.
  unfold is_finite, is_nan, is_infinity.
  rewrite !FloatAxioms.eqb_spec, abs_spec. unfold SFeqb.
  destruct (Prim2SF x) as [s|s| |s m e] eqn:E; simpl; try (intros; exact I).
  - discriminate.
  - rewrite Z.compare_refl, Pos.compare_cont_refl.
    destruct s; simpl; discriminate.
Qed.

(** *** Sums of squares *)

Lemma binary_round_aux_nonneg m e l :
  nonneg_or_nan (binary_round_aux prec emax false m e l).
Proof.
  unfold binary_round_aux.
  destruct (shr_fexp prec emax m e l) as [mrs' e'].
  destruct (shr_fexp prec emax _ e' loc_Exact) as [mrs'' e''].
  destruct (shr_m mrs''); simpl; try reflexivity.
  destruct (_ <=? _)%Z; reflexivity.
Qed.

Lemma square_nonneg x : nonneg_or_nan (Prim2SF (x * x)).
Proof.
  rewrite mul_spec. unfold SF64mul, SFmul.
  destruct (Prim2SF x) as [s|s| |s m e];
    try (destruct s; reflexivity); try exact I.
  rewrite xorb_nilpotent. apply binary_round_aux_nonneg.
Qed.

Lemma add_nonneg x y :
  nonneg_or_nan (Prim2SF x) -> nonneg_or_nan (Prim2SF y) ->
  nonneg_or_nan (Prim2SF (x + y)).
Proof.
  rewrite add_spec. unfold SF64add, SFadd.
  destruct (Prim2SF x) as [sx|sx| |sx mx ex], (Prim2SF y) as [sy|sy| |sy my ey];
    simpl; intros Hx Hy; subst; try reflexivity.
  unfold binary_normalize. simpl.
  unfold binary_round.
  destruct (shl_align _ _ _) as [mz ez]. apply binary_round_aux_nonneg.
Qed.

Lemma sqrt_nonneg x :
  nonneg_or_nan (Prim2SF x) -> nonneg_or_nan (Prim2SF (sqrt x)).
Proof.
  rewrite sqrt_spec. unfold SF64sqrt, SFsqrt.
  destruct (Prim2SF x) as [s|s| |s m e]; simpl; intros H; subst;
    try reflexivity.
  destruct (SFsqrt_core_binary prec emax (Z.pos m) e) as [[mz ez] lz].
  apply binary_round_aux_nonneg.
Qed.

(** *** Infinite and NaN operands *)

Lemma square_inf x : inf_or_nan (Prim2SF x) -> posinf_or_nan (Prim2SF (x * x)).
Proof.
  rewrite mul_spec. unfold SF64mul, SFmul.
  destruct (Prim2SF x) as [s|s| |s m e]; simpl; intros H;
    try contradiction; try exact I.
  destruct s; reflexivity.
Qed.

Lemma add_posinf_l x y :
  posinf_or_nan (Prim2SF x) -> nonneg_or_nan (Prim2SF y) ->
  posinf_or_nan (Prim2SF (x + y)).
Proof.
  rewrite add_spec. unfold SF64add, SFadd.
  destruct (Prim2SF x) as [sx|sx| |sx mx ex], (Prim2SF y) as [sy|sy| |sy my ey];
    simpl; intros Hx Hy; subst; try contradiction; try exact I; reflexivity.
Qed.

Lemma add_posinf_r x y :
  nonneg_or_nan (Prim2SF x) -> posinf_or_nan (Prim2SF y) ->
  posinf_or_nan (Prim2SF (x + y)).
Proof.
  rewrite add_spec. unfold SF64add, SFadd.
  destruct (Prim2SF x) as [sx|sx| |sx mx ex], (Prim2SF y) as [sy|sy| |sy my ey];
    simpl; intros Hx Hy; subst; try contradiction; try exact I; reflexivity.
Qed.

Lemma posinf_nonneg x : posinf_or_nan x -> nonneg_or_nan x.
Proof. destruct x; simpl; intros H; try contradiction; auto. Qed.

Lemma sqrt_posinf x :
  posinf_or_nan (Prim2SF x) -> posinf_or_nan (Prim2SF (sqrt x)).
Proof.
  rewrite sqrt_spec. unfold SF64sqrt, SFsqrt.
  destruct (Prim2SF x) as [s|s| |s m e]; simpl; intros H; subst;
    try contradiction; try exact I. reflexivity.
Qed.

Lemma mul_posinf_l x y :
  posinf_or_nan (Prim2SF x) -> nonneg_or_nan (Prim2SF y) ->
  posinf_or_nan (Prim2SF (x * y)).
Proof.
  rewrite mul_spec. unfold SF64mul, SFmul.
  destruct (Prim2SF x) as [sx|sx| |sx mx ex], (Prim2SF y) as [sy|sy| |sy my ey];
    simpl; intros Hx Hy; subst; try contradiction; try exact I; reflexivity.
Qed.

Lemma mul_posinf_r x y :
  nonneg_or_nan (Prim2SF x) -> posinf_or_nan (Prim2SF y) ->
  posinf_or_nan (Prim2SF (x * y)).
Proof. rewrite mul_comm. intros Hx Hy. now apply mul_posinf_l. Qed.

(** Anything divided by +infinity or NaN is a zero or NaN. *)
Lemma div_posinf x y : posinf_or_nan (Prim2SF y) -> zn (x / y).
Proof.
  unfold zn. rewrite div_spec. unfold SF64div, SFdiv.
  destruct (Prim2SF x) as [sx|sx| |sx mx ex], (Prim2SF y) as [sy|sy| |sy my ey];
    simpl; intros Hy; try contradiction; exact I.
Qed.

(** Adding the square of a zero changes nothing, the sum not being -0. *)
Lemma add_zero_square acc x :
  nonneg_or_nan (Prim2SF acc) -> (x =? 0) = true -> acc + x * x = acc.
Proof.
  intros Hacc Hx. apply Prim2SF_inj. rewrite add_spec, mul_spec.
  revert Hx. rewrite FloatAxioms.eqb_spec.
  change (Prim2SF 0) with (S754_zero false).
  unfold SFeqb, SF64add, SF64mul, SFadd, SFmul. revert Hacc.
  destruct (Prim2SF acc) as [sa|sa| |sa ma ea], (Prim2SF x) as [[]|[]| |[]];
    simpl; intros Hacc Hx; subst; try discriminate; reflexivity.
Qed.

End ArithFacts.

(** ** Sorting by a numeric key, largest first *)

Module SortFacts.
Import JS NumberFacts.
Local Open Scope float_scope.

(** Sorting commutes with a map the comparator factors through. *)
Lemma sort_insert_map {A B : Type} (f : A -> B) (cmp : B -> B -> number) x l :
  sort_insert cmp (f x) (List.map f l) =
  List.map f (sort_insert (fun a b => cmp (f a) (f b)) x l).
Proof.
  induction l as [|y l IH]; [reflexivity|].
  simpl. change (SortCompare (fun a b => cmp (f a) (f b)) x y)
    with (SortCompare cmp (f x) (f y)).
  destruct (0 <? SortCompare cmp (f x) (f y));
    simpl; [rewrite IH|]; reflexivity.
Qed.

Lemma sort_map {A B : Type} (f : A -> B) (cmp : B -> B -> number) l :
  sort cmp (List.map f l) =
  List.map f (sort (fun a b => cmp (f a) (f b)) l).
Proof.
  induction l as [|x l IH]; [reflexivity|].
  simpl. rewrite IH. apply sort_insert_map.
Qed.

Lemma filter_map_comm {A B : Type} (f : A -> B) (p : B -> bool) l :
  List.filter p (List.map f l) = List.map f (List.filter (fun a => p (f a)) l).
Proof.
  induction l as [|x l IH]; [reflexivity|].
  simpl. destruct (p (f x)); simpl; rewrite IH; reflexivity.
Qed.

Section ByKey.

Context {A : Type}.
Variable key : A -> number.

(** (a, b) => key(b) - key(a) *)
Let comparefn (a b : A) : number := key b - key a.

(** [x] is moved past [y] exactly when its key is strictly smaller. *)
Lemma sort_insert_cons x y rest :
  sort_insert comparefn x (y :: rest) =
  if key x <? key y then y :: sort_insert comparefn x rest
  else x :: y :: rest.
Proof.
  simpl. rewrite SortCompare_positive. unfold comparefn.
  rewrite ltb_sub. reflexivity.
Qed.

Lemma sort_insert_perm x l : Permutation (sort_insert comparefn x l) (x :: l).
Proof.
  induction l as [|y l IH]; [reflexivity|].
  rewrite sort_insert_cons. destruct (key x <? key y); [|reflexivity].
  rewrite IH. apply perm_swap.
Qed.

Lemma sort_perm l : Permutation (sort comparefn l) l.
Proof.
  induction l as [|x l IH]; [reflexivity|].
  simpl. rewrite sort_insert_perm. now constructor.
Qed.

Lemma sort_In l x : In x (sort comparefn l) <-> In x l.
Proof.
  split; apply Permutation_in; [|symmetry]; apply sort_perm.
Qed.

Lemma sort_insert_descending x l :
  key x <> nan -> Forall (fun y => key y <> nan) l ->
  descending key l -> descending key (sort_insert comparefn x l).
Proof.
  intros Hx Hl Hs. induction Hs as [|y l Hs IH Hy]; simpl.
  - repeat constructor.
  - change (descending key (sort_insert comparefn x (y :: l))).
    rewrite sort_insert_cons. inversion Hl as [|? ? Hyn Hln]; subst.
    destruct (key x <? key y) eqn:E.
    + constructor; [apply IH, Hln|].
      rewrite (List.Forall_forall (fun v => (key v <=? key y) = true)).
      intros v Hv. apply (Permutation_in _ (sort_insert_perm x l)) in Hv.
      destruct Hv as [<-|Hv].
      * apply ltb_leb, E.
      * rewrite List.Forall_forall in Hy. apply Hy, Hv.
    + assert (Hyx : (key y <=? key x) = true)
        by (apply not_ltb_leb; assumption).
      constructor; [constructor; assumption|].
      constructor; [assumption|].
      rewrite List.Forall_forall in Hy |- *. intros v Hv.
      apply leb_trans with (key y); [apply Hy, Hv|assumption].
Qed.

Lemma sort_descending l :
  Forall (fun y => key y <> nan) l -> descending key (sort comparefn l).
Proof.
  induction l as [|x l IH]; intros Hl; simpl.
  - constructor.
  - inversion Hl as [|? ? Hx Hl']; subst.
    apply sort_insert_descending; [exact Hx| |apply IH, Hl'].
    rewrite List.Forall_forall in *. intros y Hy.
    apply Hl', (proj1 (sort_In _ _)), Hy.
Qed.

(** Stability: the elements of any one key value keep their order. *)
Lemma sort_insert_stable s x l :
  List.filter (fun y => key y =? s) (sort_insert comparefn x l) =
  List.filter (fun y => key y =? s) (x :: l).
Proof.
  induction l as [|y l IH]; [reflexivity|].
  rewrite sort_insert_cons. destruct (key x <? key y) eqn:E; [|reflexivity].
  simpl in *. rewrite IH.
  destruct (key x =? s) eqn:Ex, (key y =? s) eqn:Ey; try reflexivity.
  rewrite (eqb_not_ltb _ _ _ Ex Ey) in E. discriminate.
Qed.

Lemma sort_stable s l :
  List.filter (fun y => key y =? s) (sort comparefn l) =
  List.filter (fun y => key y =? s) l.
Proof.
  induction l as [|x l IH]; [reflexivity|].
  simpl sort. rewrite sort_insert_stable. simpl. rewrite IH. reflexivity.
Qed.

(** A descending list is determined by its key classes: two descending
    lists with the same elements of every key value, in the same order,
    are equal.  So any stable sort of a list by this comparator returns
    what [sort] returns. *)
Lemma descending_stable_unique l1 : forall l2,
  Forall (fun y => key y <> nan) l1 -> Forall (fun y => key y <> nan) l2 ->
  descending key l1 -> descending key l2 ->
  (forall s, List.filter (fun y => key y =? s) l1 =
             List.filter (fun y => key y =? s) l2) ->
  l1 = l2.
Proof.
  induction l1 as [|x l1 IH]; intros l2 Hn1 Hn2 Hs1 Hs2 Hcls.
  - destruct l2 as [|y l2]; [reflexivity|].
    specialize (Hcls (key y)). simpl in Hcls.
    rewrite eqb_refl in Hcls by (now inversion Hn2). discriminate.
  - inversion Hn1 as [|? ? Hx Hn1']; subst.
    inversion Hs1 as [|? ? Hs1' Hx1]; subst.
    destruct l2 as [|y l2].
    { specialize (Hcls (key x)). simpl in Hcls.
      rewrite eqb_refl in Hcls by assumption. discriminate. }
    inversion Hn2 as [|? ? Hy Hn2']; subst.
    inversion Hs2 as [|? ? Hs2' Hy2]; subst.
    rewrite List.Forall_forall in Hx1, Hy2.
    assert (Hyx : (key y <=? key x) = true).
    { assert (Hin : In y (x :: l1)).
      { pose proof (Hcls (key y)) as E.
        assert (Hy' : In y (List.filter (fun z => key z =? key y) (y :: l2))).
        { apply List.filter_In. split; [now left|now apply eqb_refl]. }
        rewrite <- E in Hy'. apply List.filter_In in Hy'. tauto. }
      destruct Hin as [<-|Hin]; [now apply leb_refl|apply Hx1, Hin]. }
    assert (Hxy : (key x <=? key y) = true).
    { assert (Hin : In x (y :: l2)).
      { pose proof (Hcls (key x)) as E.
        assert (Hx' : In x (List.filter (fun z => key z =? key x) (x :: l1))).
        { apply List.filter_In. split; [now left|now apply eqb_refl]. }
        rewrite E in Hx'. apply List.filter_In in Hx'. tauto. }
      destruct Hin as [<-|Hin]; [now apply leb_refl|apply Hy2, Hin]. }
    assert (Heq : x = y).
    { pose proof (Hcls (key x)) as E. simpl in E.
      rewrite (eqb_refl _ Hx), (leb_antisym _ _ Hyx Hxy) in E.
      congruence. }
    subst y. f_equal. apply IH; try assumption.
    intros s. specialize (Hcls s). simpl in Hcls.
    destruct (key x =? s); congruence.
Qed.

End ByKey.

End SortFacts.

(** ** Sorting and filtering *)

Module RankFacts.
Import JS NumberFacts ArithFacts SortFacts.
Local Open Scope float_scope.

Lemma filter_filter_comm {A : Type} (p q : A -> bool) l :
  List.filter p (List.filter q l) = List.filter q (List.filter p l).
Proof.
  induction l as [|x l IH]; [reflexivity|].
  simpl. destruct (q x) eqn:Eq, (p x) eqn:Ep; simpl;
    rewrite ?Eq, ?Ep, IH; reflexivity.
Qed.

Lemma filter_filter_stronger {A : Type} (p q : A -> bool) l :
  (forall x, p x = true -> q x = true) ->
  List.filter p (List.filter q l) = List.filter p l.
Proof.
  intros Hpq. induction l as [|x l IH]; [reflexivity|].
  simpl. destruct (q x) eqn:Eq; simpl.
  - rewrite IH. reflexivity.
  - destruct (p x) eqn:Ep; [|exact IH].
    rewrite (Hpq x Ep) in Eq. discriminate.
Qed.

Lemma filter_all {A : Type} (p : A -> bool) l :
  Forall (fun x => p x = true) l -> List.filter p l = l.
Proof.
  induction 1 as [|x l Hx _ IH]; [reflexivity|].
  simpl. rewrite Hx, IH. reflexivity.
Qed.

Lemma filter_none {A : Type} (p : A -> bool) l :
  (forall x, p x = false) -> List.filter p l = [].
Proof.
  intros Hp. induction l as [|x l IH]; [reflexivity|].
  simpl. rewrite Hp. exact IH.
Qed.

Lemma Permutation_filter {A : Type} (p : A -> bool) l l' :
  Permutation l l' -> Permutation (List.filter p l) (List.filter p l').
Proof.
  induction 1 as [|x l l' _ IH|x y l|l l' l'' _ IH1 _ IH2]; simpl.
  - constructor.
  - destruct (p x); [now constructor|assumption].
  - destruct (p x), (p y); try reflexivity. apply perm_swap.
  - now transitivity (List.filter p l').
Qed.

(** Two rearrangements of one list whose elements are all equal are the
    same list. *)
Lemma Permutation_constant {A : Type} (l l' : list A) :
  Permutation l l' ->
  (forall x y, In x l -> In y l -> x = y) ->
  l = l'.
Proof.
  intros Hperm Hall. destruct l as [|x l].
  - apply Permutation_nil in Hperm. now subst.
  - rewrite (Forall_eq_repeat (x := x) (l := x :: l)).
    + rewrite (Forall_eq_repeat (x := x) (l := l')).
      * now rewrite (Permutation_length Hperm).
      * apply List.Forall_forall. intros y Hy. apply Hall; [now left|].
        apply Permutation_in with (1 := Permutation_sym Hperm), Hy.
    + apply List.Forall_forall. intros y Hy. apply Hall; [now left|exact Hy].
Qed.

Section ByKey.

Context {A : Type}.
Variable key : A -> number.

Lemma descending_filter (p : A -> bool) l :
  descending key l -> descending key (List.filter p l).
Proof.
  induction 1 as [|x l Hs IH Hx]; simpl; [constructor|].
  destruct (p x); [|assumption].
  constructor; [assumption|].
  rewrite List.Forall_forall in *. intros y Hy.
  apply List.filter_In in Hy. apply Hx, Hy.
Qed.

Lemma sort_not_nan l :
  Forall (fun y => key y <> nan) l ->
  Forall (fun y => key y <> nan) (sort (fun a b => key b - key a) l).
Proof.
  rewrite !List.Forall_forall. intros Hl y Hy.
  apply Hl, (proj1 (sort_In key _ _)), Hy.
Qed.

Lemma filter_not_nan (p : A -> bool) l :
  Forall (fun y => key y <> nan) l ->
  Forall (fun y => key y <> nan) (List.filter p l).
Proof.
  rewrite !List.Forall_forall. intros Hl y Hy.
  apply List.filter_In in Hy. apply Hl, Hy.
Qed.

(** Sorting and filtering commute: the sort is stable, so dropping
    elements before or after it leaves the others in the same order. *)
Lemma sort_filter (p : A -> bool) l :
  Forall (fun y => key y <> nan) l ->
  List.filter p (sort (fun a b => key b - key a) l) =
  sort (fun a b => key b - key a) (List.filter p l).
Proof.
  intros Hl. apply (descending_stable_unique key).
  - apply filter_not_nan, sort_not_nan, Hl.
  - apply sort_not_nan, filter_not_nan, Hl.
  - apply descending_filter, (sort_descending key), Hl.
  - apply (sort_descending key), filter_not_nan, Hl.
  - intros s. rewrite filter_filter_comm, (sort_stable key).
    rewrite (sort_stable key). apply filter_filter_comm.
Qed.

(** Sorting leaves a descending list as it is. *)
Lemma sort_descending_id l :
  Forall (fun y => key y <> nan) l -> descending key l ->
  sort (fun a b => key b - key a) l = l.
Proof.
  intros Hl Hs. apply (descending_stable_unique key).
  - apply sort_not_nan, Hl.
  - exact Hl.
  - apply (sort_descending key), Hl.
  - exact Hs.
  - intros s. apply (sort_stable key).
Qed.

(** With no ties, the result of sorting does not depend on the order of
    the input. *)
Lemma sort_Permutation l l' :
  Forall (fun y => key y <> nan) l ->
  Permutation l l' ->
  (forall x y, In x l -> In y l -> (key x =? key y) = true -> x = y) ->
  sort (fun a b => key b - key a) l' = sort (fun a b => key b - key a) l.
Proof.
  intros Hl Hperm Hties.
  assert (Hl' : Forall (fun y => key y <> nan) l').
  { rewrite List.Forall_forall in *. intros y Hy.
    apply Hl, Permutation_in with (1 := Permutation_sym Hperm), Hy. }
  apply (descending_stable_unique key).
  - apply sort_not_nan, Hl'.
  - apply sort_not_nan, Hl.
  - apply (sort_descending key), Hl'.
  - apply (sort_descending key), Hl.
  - intros s. rewrite !(sort_stable key). symmetry.
    apply Permutation_constant; [apply Permutation_filter, Hperm|].
    intros x y Hx Hy. apply List.filter_In in Hx, Hy.
    apply Hties; try tauto.
    apply eqb_trans_sym with s; tauto.
Qed.

End ByKey.

End RankFacts.

(** ** Similarity search: scores *)

Module ScoreFacts.
Import JS Binary64 NumberFacts Search.
Local Open Scope float_scope.

Lemma zn_index b i : zeroVector b -> zn (index b i).
Proof.
  intros Hb. unfold index.
  destruct (nth_in_or_default i b NaN) as [Hin | ->]; [|apply zn_nan].
  apply zn_of_eqb. unfold zeroVector in Hb.
  rewrite List.Forall_forall in Hb. apply Hb, Hin.
Qed.

Lemma dot_zn a b : forall i0 acc,
  zn acc -> zeroVector a \/ zeroVector b ->
  zn (reduce_from (fun sum x i => sum + x * index b i) i0 acc a).
Proof.
  induction a as [|x a IH]; intros i0 acc Hacc Hz; simpl; [assumption|].
  apply IH.
  - apply zn_add; [assumption|]. destruct Hz as [Ha|Hb].
    + apply zn_mul_l, zn_of_eqb. now inversion Ha.
    + apply zn_mul_r, zn_index, Hb.
  - destruct Hz as [Ha|Hb]; [left; now inversion Ha|right; assumption].
Qed.

Lemma sumsq_zn a : forall i0 acc,
  zn acc -> zeroVector a ->
  zn (reduce_from (fun sum x (_ : nat) => sum + x * x) i0 acc a).
Proof.
  induction a as [|x a IH]; intros i0 acc Hacc Hz; simpl; [assumption|].
  inversion Hz; subst. apply IH; [|assumption].
  apply zn_add; [assumption|]. now apply zn_mul_l, zn_of_eqb.
Qed.

(** A zero vector on either side makes the quotient 0/0 (or NaN/0). *)
Lemma cosineSimilarity_zero a b :
  zeroVector a \/ zeroVector b -> cosineSimilarity a b = NaN.
Proof.
  intros Hz. unfold cosineSimilarity, reduce. apply zn_div.
  - apply dot_zn; [apply zn_zero|assumption].
  - destruct Hz as [Ha|Hb].
    + apply zn_mul_l, zn_sqrt, sumsq_zn; [apply zn_zero|assumption].
    + apply zn_mul_r, zn_sqrt, sumsq_zn; [apply zn_zero|assumption].
Qed.

Lemma dot_nan a b : forall i0,
  reduce_from (fun sum x i => sum + x * index b i) i0 nan a = nan.
Proof.
  induction a as [|x a IH]; intros i0; simpl; [reflexivity|].
  rewrite add_nan_l. apply IH.
Qed.

(** Once the index runs past the end of [b], the sum is NaN. *)
Lemma dot_short a b : forall i0 acc,
  (i0 <= length b < i0 + length a)%nat ->
  reduce_from (fun sum x i => sum + x * index b i) i0 acc a = nan.
Proof.
  induction a as [|x a IH]; intros i0 acc Hlen; simpl in *.
  - exfalso. lia.
  - destruct (Nat.le_gt_cases (length b) i0) as [Hge|Hlt].
    + change (index b i0) with (nth i0 b NaN).
      rewrite nth_overflow by assumption.
      unfold NaN. rewrite mul_nan_r, add_nan_r. apply dot_nan.
    + apply IH. lia.
Qed.

Lemma cosineSimilarity_short a b :
  (length b < length a)%nat -> cosineSimilarity a b = NaN.
Proof.
  intros Hlen. unfold cosineSimilarity, reduce.
  rewrite dot_short by (unfold number in *; simpl; lia). apply div_nan_l.
Qed.

(** The hypothesis is on the vector, not on the computed magnitude: the
    squares of a nonzero component can underflow, and the quotient is then
    infinite rather than NaN. *)
Remark cosineSimilarity_underflow :
  zeroVector [Fixtures.tiny] -> False.
Proof. intros H. inversion H as [|? ? Hx _]. vm_compute in Hx. discriminate. Qed.

Remark cosineSimilarity_underflow_value :
  sqrt (reduce (fun sum x (_ : nat) => sum + x * x) 0 [Fixtures.tiny]) = 0 /\
  cosineSimilarity [Fixtures.tiny] [1] = infinity.
Proof. split; vm_compute; reflexivity. Qed.

End ScoreFacts.

(** ** Similarity search: the ranking *)

Module SearchFacts.
Import JS NumberFacts SortFacts ScoreFacts Search Fixtures.
Local Open Scope float_scope.

Section WithModel.

Variable getEmbedding : string -> list number.
Variable JSON_parse : string -> list number.

Abbreviation semanticSearch := (semanticSearch getEmbedding JSON_parse).
Abbreviation scoreOf := (scoreOf getEmbedding JSON_parse).
Abbreviation candidateVector := (candidateVector JSON_parse).

(** The search on cards: the cards above the threshold, stably sorted by
    their scores, largest first. *)
Lemma semanticSearch_cards query cards threshold :
  semanticSearch query cards threshold =
  sort (fun a b => scoreOf query b - scoreOf query a)
    (List.filter (fun c => threshold <? scoreOf query c) cards).
Proof.
  unfold Search.semanticSearch.
  rewrite filter_map_comm, sort_map, List.map_map.
  apply List.map_id.
Qed.

Lemma semanticSearch_In query cards threshold c :
  In c (semanticSearch query cards threshold) <->
  In c cards /\ (threshold <? scoreOf query c) = true.
Proof.
  rewrite semanticSearch_cards, (sort_In (scoreOf query)).
  apply List.filter_In.
Qed.

(** C1, as the code has it.  The list returned by [semanticSearch] is
    sorted by descending cosine score between any two positions, equal
    scores allowed; cards of equal score keep the order they had in the
    candidate list (there is no tie-break on the id); every returned score
    is strictly greater than the threshold; and there is no limit: the
    result is a rearrangement of all candidates above the threshold. *)
Theorem semanticSearch_ranking query cards threshold :
  let out := semanticSearch query cards threshold in
  let above := List.filter (fun c => threshold <? scoreOf query c) cards in
  StronglySorted (fun c1 c2 => (scoreOf query c2 <=? scoreOf query c1) = true) out /\
  (forall s, List.filter (fun c => scoreOf query c =? s) out =
             List.filter (fun c => scoreOf query c =? s) above) /\
  Forall (fun c => (threshold <? scoreOf query c) = true) out /\
  Permutation out above.
Proof.
  intros out above. subst out. rewrite semanticSearch_cards. fold above.
  assert (Habove : Forall (fun c => (threshold <? scoreOf query c) = true) above).
  { apply List.Forall_forall. intros c Hc. apply List.filter_In in Hc. tauto. }
  repeat split.
  - apply (sort_descending (scoreOf query)).
    eapply List.Forall_impl; [|exact Habove].
    intros c Hc. simpl in Hc. eapply ltb_not_nan, Hc.
  - intros s. apply (sort_stable (scoreOf query)).
  - apply List.Forall_forall. intros c Hc.
    rewrite List.Forall_forall in Habove.
    apply Habove, (proj1 (sort_In (scoreOf query) _ _)), Hc.
  - apply (sort_perm (scoreOf query)).
Qed.

(** The three properties fix the result: a list that is descending, has
    no NaN score and holds the cards of every score value in the order of
    the candidates above the threshold is the list [semanticSearch]
    returns, whichever stable sorting algorithm the engine uses. *)
Lemma ranking_determines_result query cards threshold out' :
  let above := List.filter (fun c => threshold <? scoreOf query c) cards in
  descending (scoreOf query) out' ->
  Forall (fun c => scoreOf query c <> nan) out' ->
  (forall s, List.filter (fun c => scoreOf query c =? s) out' =
             List.filter (fun c => scoreOf query c =? s) above) ->
  out' = semanticSearch query cards threshold.
Proof.
  intros above Hdesc Hnan Hcls. rewrite semanticSearch_cards. fold above.
  assert (Habove : Forall (fun c => scoreOf query c <> nan) above).
  { apply List.Forall_forall. intros c Hc. apply List.filter_In in Hc.
    eapply ltb_not_nan, (proj2 Hc). }
  apply (descending_stable_unique (scoreOf query)); try assumption.
  - apply List.Forall_forall. intros c Hc.
    rewrite List.Forall_forall in Habove.
    apply Habove, (proj1 (sort_In (scoreOf query) _ _)), Hc.
  - apply (sort_descending (scoreOf query)), Habove.
  - intros s. rewrite Hcls. symmetry. apply (sort_stable (scoreOf query)).
Qed.

(** C2, as the code has it.  A candidate whose vector is shorter than the
    query vector scores NaN and never appears in the output, whatever the
    threshold. *)
Theorem shorter_candidate_excluded query cards threshold c :
  (length (candidateVector c) < length (getEmbedding query))%nat ->
  scoreOf query c = NaN /\ ~ In c (semanticSearch query cards threshold).
Proof.
  intros Hlen.
  assert (Hnan : scoreOf query c = NaN) by (apply cosineSimilarity_short, Hlen).
  split; [exact Hnan|].
  rewrite semanticSearch_In, Hnan. unfold NaN. rewrite ltb_nan_r.
  intros [_ H]. discriminate.
Qed.

(** C10.  When the query vector or the candidate's vector has zero
    magnitude, the cosine is NaN, NaN is not greater than any threshold,
    and the candidate is absent from the output; the search itself still
    returns its list. *)
Theorem zero_magnitude_excluded query cards threshold c :
  zeroVector (getEmbedding query) \/ zeroVector (candidateVector c) ->
  cosineSimilarity (getEmbedding query) (candidateVector c) = NaN /\
  (threshold <? NaN) = false /\
  ~ In c (semanticSearch query cards threshold).
Proof.
  intros Hz.
  pose proof (cosineSimilarity_zero _ _ Hz) as Hnan.
  split; [exact Hnan|]. split; [apply ltb_nan_r|].
  rewrite semanticSearch_In. unfold Search.scoreOf, score. simpl.
  rewrite Hnan. unfold NaN. rewrite ltb_nan_r. intros [_ H]. discriminate.
Qed.

End WithModel.

(** C1 fails as stated: two cards with the same embedding tie at score 1
    and come back as "b", "a".  The output is not sorted by strictly
    descending score with ties in id order, and it has more entries than a
    limit of one. *)
Lemma semanticSearch_ranking_counterexample :
  let scoreOf := scoreOf exampleEmbedding exampleParse "bread" in
  let out := semanticSearch exampleEmbedding exampleParse "bread"
               [cardB; cardA] defaultThreshold in
  out = [cardB; cardA] /\
  ~ StronglySorted
      (fun c1 c2 =>
         (scoreOf c2 <? scoreOf c1) = true \/
         ((scoreOf c2 =? scoreOf c1) = true /\
          String.leb (id c1) (id c2) = true)) out /\
  ~ (length out <= 1)%nat.
Proof.
  cbv zeta.
  assert (Hout : semanticSearch exampleEmbedding exampleParse "bread"
                   [cardB; cardA] defaultThreshold = [cardB; cardA])
    by (vm_compute; reflexivity).
  rewrite Hout. split; [reflexivity|]. split.
  - intros Hsorted. inversion Hsorted as [|? ? _ Hhead]; subst.
    inversion Hhead as [|? ? Hba _]; subst.
    vm_compute in Hba. destruct Hba as [Hlt|[_ Hid]]; discriminate.
  - simpl. lia.
Qed.

Lemma shorter_candidate_excluded_witness :
  scoreOf exampleEmbedding exampleParse "bread" cardShort = NaN /\
  ~ In cardShort
      (semanticSearch exampleEmbedding exampleParse "bread"
         [cardA; cardShort] 0).
Proof.
  apply (shorter_candidate_excluded exampleEmbedding exampleParse).
  vm_compute. lia.
Defined.

(** C2 fails as stated: a candidate with a longer vector than the query is
    scored on its leading components and returned. *)
Lemma dimension_guard_counterexample :
  length (candidateVector exampleParse cardLong)
    <> length (exampleEmbedding "bread") /\
  scoreOf exampleEmbedding exampleParse "bread" cardLong = 1 /\
  In cardLong
    (semanticSearch exampleEmbedding exampleParse "bread" [cardLong] 0).
Proof.
  split; [vm_compute; discriminate|].
  split; [vm_compute; reflexivity|].
  vm_compute. left. reflexivity.
Qed.

Lemma zero_magnitude_excluded_witness :
  cosineSimilarity (exampleEmbedding "bread")
    (candidateVector exampleParse cardZero) = NaN /\
  (neg_infinity <? NaN) = false /\
  ~ In cardZero
      (semanticSearch exampleEmbedding exampleParse "bread"
         [cardA; cardZero] neg_infinity).
Proof.
  apply (zero_magnitude_excluded exampleEmbedding exampleParse).
  right. repeat constructor.
Defined.

End SearchFacts.

(** ** Similarity search: thresholds, repeated searches, candidate order *)

Module RankingFacts.
Import JS Binary64Sign NumberFacts ArithFacts SortFacts RankFacts Search SearchFacts Fixtures
  RankingFixtures.
Local Open Scope float_scope.

Section WithModel.

Variable getEmbedding : string -> list number.
Variable JSON_parse : string -> list number.

Abbreviation semanticSearch := (semanticSearch getEmbedding JSON_parse).
Abbreviation scoreOf := (scoreOf getEmbedding JSON_parse).

Lemma above_not_nan query threshold cards :
  Forall (fun c => scoreOf query c <> nan)
    (List.filter (fun c => threshold <? scoreOf query c) cards).
Proof.
  apply List.Forall_forall. intros c Hc. apply List.filter_In in Hc.
  eapply ltb_not_nan, (proj2 Hc).
Qed.

(** X1.  Raising the threshold only removes results: the search at the higher
    threshold returns the results of the search at the lower one that
    score above the higher threshold, in the same order. *)
Theorem raising_threshold_filters query cards t1 t2 :
  (t1 <=? t2) = true ->
  semanticSearch query cards t2 =
  List.filter (fun c => t2 <? scoreOf query c) (semanticSearch query cards t1).
Proof.
  intros Hle. rewrite !(semanticSearch_cards getEmbedding JSON_parse).
  rewrite (sort_filter (scoreOf query)) by apply above_not_nan.
  rewrite filter_filter_stronger; [reflexivity|].
  intros c Hc. apply leb_ltb_trans with t2; assumption.
Qed.

(** X2.  Searching within the results of a search, with the same query and
    threshold, returns them unchanged. *)
Theorem semanticSearch_idempotent query cards threshold :
  semanticSearch query (semanticSearch query cards threshold) threshold =
  semanticSearch query cards threshold.
Proof.
  rewrite (semanticSearch_cards getEmbedding JSON_parse query
             (semanticSearch query cards threshold)).
  rewrite (semanticSearch_cards getEmbedding JSON_parse query cards).
  set (above := List.filter (fun c => threshold <? scoreOf query c) cards).
  set (out := sort _ above).
  assert (Hnan : Forall (fun c => scoreOf query c <> nan) out).
  { apply (sort_not_nan (scoreOf query)), above_not_nan. }
  rewrite filter_all.
  - apply (sort_descending_id (scoreOf query)); [exact Hnan|].
    apply (sort_descending (scoreOf query)), above_not_nan.
  - apply List.Forall_forall. intros c Hc.
    apply (proj1 (sort_In (scoreOf query) _ _)) in Hc.
    apply List.filter_In in Hc. tauto.
Qed.

(** X3.  The first result is a best match: it is a candidate above the
    threshold, and no candidate with a defined score scores higher. *)
Theorem first_result_is_best query cards threshold c rest c' :
  semanticSearch query cards threshold = c :: rest ->
  In c' cards -> scoreOf query c' <> NaN ->
  In c cards /\ (threshold <? scoreOf query c) = true /\
  (scoreOf query c' <=? scoreOf query c) = true.
Proof.
  intros Hout Hc' Hnan.
  assert (Hc : In c cards /\ (threshold <? scoreOf query c) = true).
  { apply (semanticSearch_In getEmbedding JSON_parse query cards threshold).
    rewrite Hout. now left. }
  destruct Hc as [Hc Hlt]. split; [exact Hc|]. split; [exact Hlt|].
  destruct (threshold <? scoreOf query c') eqn:E.
  - assert (Hin : In c' (semanticSearch query cards threshold))
      by (apply semanticSearch_In; tauto).
    pose proof (sort_descending (scoreOf query) _
                  (above_not_nan query threshold cards)) as Hdesc.
    rewrite <- (semanticSearch_cards getEmbedding JSON_parse) in Hdesc.
    rewrite Hout in Hin, Hdesc.
    destruct Hin as [<-|Hin].
    + apply leb_refl, Hnan.
    + inversion Hdesc as [|? ? _ Hhead]; subst.
      rewrite List.Forall_forall in Hhead. apply Hhead, Hin.
  - apply leb_trans with threshold.
    + apply not_ltb_leb; [|exact Hnan|exact E].
      eapply ltb_not_nan_l, Hlt.
    + apply ltb_leb, Hlt.
Qed.

(** X4.  The order of the candidates matters for ties only: when no two
    different candidates above the threshold have equal scores, every
    rearrangement of the candidates gives the same result. *)
Theorem candidate_order_matters_for_ties_only query cards cards' threshold :
  Permutation cards cards' ->
  (forall c1 c2, In c1 cards -> In c2 cards ->
     (threshold <? scoreOf query c1) = true ->
     (scoreOf query c1 =? scoreOf query c2) = true -> c1 = c2) ->
  semanticSearch query cards' threshold = semanticSearch query cards threshold.
Proof.
  intros Hperm Hties. rewrite !(semanticSearch_cards getEmbedding JSON_parse).
  apply (sort_Permutation (scoreOf query)).
  - apply above_not_nan.
  - apply Permutation_filter, Hperm.
  - intros x y Hx Hy. apply List.filter_In in Hx, Hy.
    apply Hties; tauto.
Qed.

(** X5.  A threshold that is NaN or +Infinity selects nothing: the search
    returns the empty list for every query and candidate list. *)
Theorem unreachable_threshold_returns_nothing query cards threshold :
  threshold = NaN \/ threshold = infinity ->
  semanticSearch query cards threshold = [].
Proof.
  intros Ht. rewrite (semanticSearch_cards getEmbedding JSON_parse).
  rewrite filter_none; [reflexivity|].
  intros c. apply ltb_posinf_or_nan. destruct Ht as [-> | ->]; [exact I|reflexivity].
Qed.

(** X16.  Searching two candidate lists separately and then searching the
    concatenation of the two results gives what one search over the
    concatenated candidates gives. *)
Theorem search_of_concatenation query cards1 cards2 threshold :
  semanticSearch query (cards1 ++ cards2) threshold =
  semanticSearch query
    (semanticSearch query cards1 threshold ++
     semanticSearch query cards2 threshold) threshold.
Proof.
  rewrite (semanticSearch_cards getEmbedding JSON_parse query
             (semanticSearch query cards1 threshold ++ _)).
  rewrite !(semanticSearch_cards getEmbedding JSON_parse query cards1).
  rewrite !(semanticSearch_cards getEmbedding JSON_parse query cards2).
  rewrite !(semanticSearch_cards getEmbedding JSON_parse query (cards1 ++ cards2)).
  set (key := scoreOf query).
  set (p := fun c => threshold <? key c).
  pose proof (above_not_nan query threshold cards1) as Hn1.
  pose proof (above_not_nan query threshold cards2) as Hn2.
  fold key in Hn1, Hn2. fold p in Hn1, Hn2.
  set (f1 := List.filter p cards1) in *.
  set (f2 := List.filter p cards2) in *.
  set (cmp := fun a b => key b - key a).
  assert (Hp : forall f, Forall (fun c => p c = true) (sort cmp (List.filter p f))).
  { intros f. apply List.Forall_forall. intros c Hc.
    apply (proj1 (sort_In key _ _)) in Hc. apply List.filter_In in Hc. tauto. }
  rewrite !List.filter_app.
  rewrite (filter_all p (sort cmp f1)) by apply Hp.
  rewrite (filter_all p (sort cmp f2)) by apply Hp.
  fold f1 f2.
  assert (Hn : Forall (fun c => key c <> nan) (f1 ++ f2))
    by (apply Forall_app; split; assumption).
  assert (Hs : Forall (fun c => key c <> nan) (sort cmp f1 ++ sort cmp f2)).
  { apply Forall_app; split; apply (sort_not_nan key); assumption. }
  apply (descending_stable_unique key).
  - apply (sort_not_nan key), Hn.
  - apply (sort_not_nan key), Hs.
  - apply (sort_descending key), Hn.
  - apply (sort_descending key), Hs.
  - intros s. rewrite !(sort_stable key), !List.filter_app, !(sort_stable key).
    reflexivity.
Qed.

End WithModel.

Lemma raising_threshold_filters_witness :
  semanticSearch exampleEmbedding rankedParse "bread"
    [cardFlat; cardA; cardSteep] 0.75 =
  List.filter
    (fun c => 0.75 <? scoreOf exampleEmbedding rankedParse "bread" c)
    (semanticSearch exampleEmbedding rankedParse "bread"
       [cardFlat; cardA; cardSteep] 0.5).
Proof.
  apply (raising_threshold_filters exampleEmbedding rankedParse).
  reflexivity.
Defined.

Lemma first_result_is_best_witness :
  In cardA [cardFlat; cardA; cardSteep] /\
  (0.5 <? scoreOf exampleEmbedding rankedParse "bread" cardA) = true /\
  (scoreOf exampleEmbedding rankedParse "bread" cardFlat <=?
   scoreOf exampleEmbedding rankedParse "bread" cardA) = true.
Proof.
  apply (first_result_is_best exampleEmbedding rankedParse "bread"
           [cardFlat; cardA; cardSteep] 0.5 cardA [cardSteep; cardFlat] cardFlat).
  - vm_compute. reflexivity.
  - now left.
  - apply (ltb_not_nan 0). vm_compute. reflexivity.
Defined.

Lemma candidate_order_matters_for_ties_only_witness :
  semanticSearch exampleEmbedding rankedParse "bread"
    [cardSteep; cardFlat; cardA] 0.5 =
  semanticSearch exampleEmbedding rankedParse "bread"
    [cardFlat; cardA; cardSteep] 0.5.
Proof.
  apply (candidate_order_matters_for_ties_only exampleEmbedding rankedParse).
  - symmetry. apply (Permutation_cons_append [cardFlat; cardA] cardSteep).
  - intros c1 c2 H1 H2 _ Heq. simpl in H1, H2.
    destruct H1 as [<-|[<-|[<-|[]]]], H2 as [<-|[<-|[<-|[]]]];
      try reflexivity; vm_compute in Heq; discriminate.
Defined.

Lemma unreachable_threshold_returns_nothing_witness :
  semanticSearch exampleEmbedding rankedParse "bread"
    [cardFlat; cardA; cardSteep] NaN = [].
Proof.
  apply (unreachable_threshold_returns_nothing exampleEmbedding rankedParse).
  left. reflexivity.
Defined.

End RankingFacts.

(** ** Cosine similarity: symmetry, overflowed components, zero padding *)

Module CosineFacts.
Import JS Binary64 Binary64Sign NumberFacts ArithFacts Search SearchFacts Fixtures
  RankingFixtures.
Local Open Scope float_scope.

(** *** The dot product of two vectors of one length *)

Lemma index_middle (p : list number) y rest :
  index (p ++ y :: rest) (length p) = y.
Proof. unfold index. apply nth_middle. Qed.

Lemma dot_swap a : forall b pa pb acc,
  length pa = length pb -> length a = length b ->
  reduce_from (fun sum x i => sum + x * index (pb ++ b) i) (length pb) acc a =
  reduce_from (fun sum x i => sum + x * index (pa ++ a) i) (length pa) acc b.
Proof.
  induction a as [|x a IH]; intros [|y b] pa pb acc Hp Hlen;
    try discriminate; [reflexivity|].
  simpl. rewrite !index_middle, (mul_comm y x).
  specialize (IH b (pa ++ [x]) (pb ++ [y]) (acc + x * y)).
  rewrite !List.length_app, <- !List.app_assoc in IH. simpl in IH.
  rewrite !Nat.add_1_r in IH. apply IH; [congruence|].
  simpl in Hlen. congruence.
Qed.

(** *** Sums of squares and magnitudes *)

Lemma zero_nonneg : nonneg_or_nan (Prim2SF 0).
Proof. reflexivity. Qed.

Lemma sumsq_nonneg v : forall i0 acc,
  nonneg_or_nan (Prim2SF acc) ->
  nonneg_or_nan
    (Prim2SF (reduce_from (fun sum x (_ : nat) => sum + x * x) i0 acc v)).
Proof.
  induction v as [|x v IH]; intros i0 acc Hacc; simpl; [assumption|].
  apply IH, add_nonneg; [assumption|apply square_nonneg].
Qed.

Lemma sumsq_posinf v : forall i0 acc,
  posinf_or_nan (Prim2SF acc) ->
  posinf_or_nan
    (Prim2SF (reduce_from (fun sum x (_ : nat) => sum + x * x) i0 acc v)).
Proof.
  induction v as [|x v IH]; intros i0 acc Hacc; simpl; [assumption|].
  apply IH, add_posinf_l; [assumption|apply square_nonneg].
Qed.

(** One infinite or NaN component makes the sum of squares +Infinity or
    NaN. *)
Lemma sumsq_nonfinite v : forall i0 acc,
  nonneg_or_nan (Prim2SF acc) ->
  Exists (fun x => is_finite x = false) v ->
  posinf_or_nan
    (Prim2SF (reduce_from (fun sum x (_ : nat) => sum + x * x) i0 acc v)).
Proof.
  induction v as [|x v IH]; intros i0 acc Hacc Hex; simpl.
  - inversion Hex.
  - inversion Hex as [? ? Hx|? ? Hv]; subst.
    + apply sumsq_posinf, add_posinf_r; [assumption|].
      apply square_inf, is_finite_false, Hx.
    + apply IH; [|assumption].
      apply add_nonneg; [assumption|apply square_nonneg].
Qed.

Lemma magnitude_nonneg v :
  nonneg_or_nan
    (Prim2SF (sqrt (reduce (fun sum x (_ : nat) => sum + x * x) 0 v))).
Proof. apply sqrt_nonneg, sumsq_nonneg, zero_nonneg. Qed.

Lemma magnitude_nonfinite v :
  Exists (fun x => is_finite x = false) v ->
  posinf_or_nan
    (Prim2SF (sqrt (reduce (fun sum x (_ : nat) => sum + x * x) 0 v))).
Proof. intros Hv. apply sqrt_posinf, sumsq_nonfinite; [apply zero_nonneg|exact Hv]. Qed.

Lemma zn_cases x : zn x -> (x =? 0) = true \/ x = NaN.
Proof.
  unfold zn. rewrite FloatAxioms.eqb_spec.
  change (Prim2SF 0) with (S754_zero false).
  destruct (Prim2SF x) as [s|s| |s m e] eqn:E; simpl; intros H;
    try contradiction.
  - left. destruct s; reflexivity.
  - right. apply nan_of_spec, E.
Qed.

Lemma cosineSimilarity_nonfinite a b :
  Exists (fun x => is_finite x = false) a \/
  Exists (fun x => is_finite x = false) b ->
  zn (cosineSimilarity a b).
Proof.
  intros Hex. unfold cosineSimilarity. apply div_posinf.
  destruct Hex as [Ha|Hb].
  - apply mul_posinf_l; [apply magnitude_nonfinite, Ha|apply magnitude_nonneg].
  - apply mul_posinf_r; [apply magnitude_nonneg|apply magnitude_nonfinite, Hb].
Qed.

(** *** Trailing zeros *)

Lemma reduce_from_app {A B : Type} (f : B -> A -> nat -> B) l1 : forall l2 i0 acc,
  reduce_from f i0 acc (l1 ++ l2) =
  reduce_from f (i0 + length l1) (reduce_from f i0 acc l1) l2.
Proof.
  induction l1 as [|x l1 IH]; intros l2 i0 acc; simpl.
  - rewrite Nat.add_0_r. reflexivity.
  - rewrite IH. f_equal. lia.
Qed.

Lemma sumsq_zeros z : forall i0 acc,
  nonneg_or_nan (Prim2SF acc) -> zeroVector z ->
  reduce_from (fun sum x (_ : nat) => sum + x * x) i0 acc z = acc.
Proof.
  induction z as [|x z IH]; intros i0 acc Hacc Hz; simpl; [reflexivity|].
  inversion Hz as [|? ? Hx Hz']; subst.
  rewrite add_zero_square by assumption. apply IH; assumption.
Qed.

Lemma dot_prefix a (b z : list number) : forall i0 acc,
  (i0 + length a <= length b)%nat ->
  reduce_from (fun sum x i => sum + x * index (b ++ z) i) i0 acc a =
  reduce_from (fun sum x i => sum + x * index b i) i0 acc a.
Proof.
  induction a as [|x a IH]; intros i0 acc Hlen; simpl in *; [reflexivity|].
  unfold index at 2. rewrite app_nth1 by lia. fold (index b i0).
  apply IH. lia.
Qed.

(** X6.  Cosine similarity is symmetric on vectors of one length. *)
Theorem cosineSimilarity_symmetric a b :
  length a = length b -> cosineSimilarity a b = cosineSimilarity b a.
Proof.
  intros Hlen. unfold cosineSimilarity, reduce.
  pose proof (dot_swap a b [] [] 0 eq_refl Hlen) as Hdot.
  simpl in Hdot. rewrite Hdot, (mul_comm (sqrt _) (sqrt _)). reflexivity.
Qed.

Lemma cosineSimilarity_symmetric_witness :
  cosineSimilarity [1; 2; 3] [0.5; -4; 0] =
  cosineSimilarity [0.5; -4; 0] [1; 2; 3].
Proof. apply cosineSimilarity_symmetric. reflexivity. Defined.

(** X7.  Zero components appended to a candidate vector that is at least as
    long as the query vector do not change the score: the dot product
    stops at the end of the query vector and the zeros add nothing to
    the magnitude. *)
Theorem zero_padding_keeps_score a b z :
  (length a <= length b)%nat -> zeroVector z ->
  cosineSimilarity a (b ++ z) = cosineSimilarity a b.
Proof.
  intros Hlen Hz. unfold cosineSimilarity, reduce.
  rewrite dot_prefix by (unfold number in *; simpl; lia).
  rewrite (reduce_from_app _ b z), (sumsq_zeros z); [reflexivity| |exact Hz].
  apply sumsq_nonneg, zero_nonneg.
Qed.

Lemma zero_padding_keeps_score_witness :
  cosineSimilarity [1; 2] ([3; 4] ++ [0; -0]) = cosineSimilarity [1; 2] [3; 4].
Proof.
  apply zero_padding_keeps_score; [simpl; lia|].
  repeat constructor.
Defined.

Section WithModel.

Variable getEmbedding : string -> list number.
Variable JSON_parse : string -> list number.

Abbreviation semanticSearch := (semanticSearch getEmbedding JSON_parse).
Abbreviation scoreOf := (scoreOf getEmbedding JSON_parse).
Abbreviation candidateVector := (candidateVector JSON_parse).

(** X8.  A component that is infinite or NaN, in the query vector or in the
    candidate's vector, makes the score a zero or NaN, so the candidate
    is returned at no threshold that is zero or more. *)
Theorem nonfinite_component_excluded query cards threshold c :
  Exists (fun x => is_finite x = false) (getEmbedding query) \/
  Exists (fun x => is_finite x = false) (candidateVector c) ->
  (0 <=? threshold) = true ->
  ((scoreOf query c =? 0) = true \/ scoreOf query c = NaN) /\
  ~ In c (semanticSearch query cards threshold).
Proof.
  intros Hex Ht.
  assert (Hzn : zn (scoreOf query c)) by (apply cosineSimilarity_nonfinite, Hex).
  split; [apply zn_cases, Hzn|].
  rewrite (semanticSearch_In getEmbedding JSON_parse).
  rewrite (ltb_zn _ _ Ht Hzn). intros [_ H]. discriminate.
Qed.

End WithModel.

Lemma nonfinite_component_excluded_witness :
  ((scoreOf exampleEmbedding rankedParse "bread" cardOverflow =? 0) = true \/
   scoreOf exampleEmbedding rankedParse "bread" cardOverflow = NaN) /\
  ~ In cardOverflow
      (semanticSearch exampleEmbedding rankedParse "bread"
         [cardA; cardOverflow] defaultThreshold).
Proof.
  apply (nonfinite_component_excluded exampleEmbedding rankedParse).
  - right. apply Exists_cons_hd. reflexivity.
  - reflexivity.
Defined.

End CosineFacts.

(** ** Embedding cache *)

Module CacheFacts.
Import JS EmbeddingCache Fixtures.
Local Open Scope Z_scope.

Section WithHash.

Variable hashText : string -> string.

Abbreviation getCachedEmbedding := (getCachedEmbedding hashText).
Abbreviation cacheEmbedding := (cacheEmbedding hashText).

(** C4, as the code has it.  A get on an entry whose age has reached its
    TTL (age >= ttl, the boundary included) is a miss and removes the
    entry; a get on an entry younger than its TTL returns the stored
    vector and leaves the cache unchanged. *)
Theorem getCachedEmbedding_ttl now text (cache : gmap string CacheEntry) entry :
  cache !! hashText text = Some entry ->
  (ttl entry * 1000 <= age now entry ->
     getCachedEmbedding now text cache = (None, delete (hashText text) cache) /\
     snd (getCachedEmbedding now text cache) !! hashText text = None) /\
  (age now entry < ttl entry * 1000 ->
     getCachedEmbedding now text cache = (Some (embedding entry), cache)).
Proof.
  intros Hentry. unfold EmbeddingCache.getCachedEmbedding, age.
  rewrite Hentry. split; intros Hage.
  - destruct (Z.ltb_spec (now - timestamp entry) (ttl entry * 1000)); [lia|].
    split; [reflexivity|]. simpl. apply lookup_delete_eq.
  - destruct (Z.ltb_spec (now - timestamp entry) (ttl entry * 1000)); [|lia].
    reflexivity.
Qed.

(** A get for a text without an entry is a miss and changes nothing. *)
Lemma getCachedEmbedding_absent now text (cache : gmap string CacheEntry) :
  cache !! hashText text = None ->
  getCachedEmbedding now text cache = (None, cache).
Proof.
  intros Hnone. unfold EmbeddingCache.getCachedEmbedding. rewrite Hnone.
  rewrite delete_id by assumption. reflexivity.
Qed.

(** A get touches no entry but the one of its own key. *)
Lemma getCachedEmbedding_others now text (cache : gmap string CacheEntry) k :
  k <> hashText text ->
  snd (getCachedEmbedding now text cache) !! k = cache !! k.
Proof.
  intros Hk. unfold EmbeddingCache.getCachedEmbedding.
  destruct (cache !! hashText text) as [cached|];
    [destruct (_ <? _)|]; simpl; try reflexivity;
    apply lookup_delete_ne; congruence.
Qed.

(** C7, as the code has it.  [cacheEmbedding] has no bound on the number
    of entries and evicts nothing: it writes the entry of its own key and
    keeps every other entry, so a put under a new key grows the cache by
    one; a get, for its part, touches only the entry of its own key. *)
Theorem cacheEmbedding_keeps_entries now text e (cache : gmap string CacheEntry) :
  let cache' := cacheEmbedding now text e cache in
  cache' !! hashText text =
    Some {| embedding := e; timestamp := now; ttl := 86400 |} /\
  (forall k, k <> hashText text -> cache' !! k = cache !! k) /\
  size cache' = match cache !! hashText text with
                | Some _ => size cache
                | None => S (size cache)
                end /\
  (forall now' text' k, k <> hashText text' ->
     snd (getCachedEmbedding now' text' cache) !! k = cache !! k).
Proof.
  unfold EmbeddingCache.cacheEmbedding. cbv zeta. repeat split.
  - apply lookup_insert_eq.
  - intros k Hk. apply lookup_insert_ne. congruence.
  - rewrite map_size_insert. destruct (cache !! hashText text); reflexivity.
  - intros now' text' k. apply getCachedEmbedding_others.
Qed.

(** Puts of texts with pairwise distinct keys, none of them cached yet,
    add one entry each, whatever the hash function. *)
Lemma run_putAll texts : forall cache : gmap string CacheEntry,
  NoDup (List.map hashText texts) ->
  (forall t, In t texts -> cache !! hashText t = None) ->
  size (run hashText (putAll texts) cache) = (size cache + length texts)%nat.
Proof.
  unfold run.
  induction texts as [|t texts IH]; intros cache Hnd Hfresh; simpl.
  - lia.
  - simpl in Hnd. apply NoDup_cons in Hnd. destruct Hnd as [Hnotin Hnd].
    rewrite IH; [|assumption|].
    + unfold EmbeddingCache.cacheEmbedding.
      rewrite map_size_insert_None by (apply Hfresh; now left). lia.
    + intros t' Ht'. unfold EmbeddingCache.cacheEmbedding.
      rewrite lookup_insert_ne.
      * apply Hfresh. now right.
      * intros Heq. apply Hnotin. rewrite Heq.
        apply list_elem_of_In, List.in_map, Ht'.
Qed.

End WithHash.

(** C4 fails as stated at the boundary: an entry put at clock reading 0
    has TTL 86400 s; at reading 86400000 its age equals the TTL and does
    not exceed it, yet the get misses and removes the entry. *)
Lemma getCachedEmbedding_boundary_counterexample :
  let entry := {| embedding := []; timestamp := 0; ttl := 86400 |} in
  let cache := cacheEmbedding plainHash 0 "bread" [] ∅ in
  cache !! plainHash "bread" = Some entry /\
  ~ (ttl entry * 1000 < age 86400000 entry) /\
  getCachedEmbedding plainHash 86400000 "bread" cache = (None, ∅).
Proof.
  cbv zeta. unfold cacheEmbedding, getCachedEmbedding, plainHash, age.
  rewrite lookup_insert_eq. split; [reflexivity|]. split; [simpl; lia|].
  simpl. rewrite delete_insert_eq, delete_empty. reflexivity.
Qed.

Lemma getCachedEmbedding_ttl_witness :
  let entry := {| embedding := [1%float]; timestamp := 0; ttl := 86400 |} in
  let cache : gmap string CacheEntry := {[ "bread"%string := entry ]} in
  getCachedEmbedding plainHash 90000000 "bread" cache
    = (None, delete (plainHash "bread") cache) /\
  getCachedEmbedding plainHash 1000 "bread" cache = (Some [1%float], cache).
Proof.
  cbv zeta. split.
  - apply (getCachedEmbedding_ttl plainHash 90000000 "bread" _
             {| embedding := [1%float]; timestamp := 0; ttl := 86400 |}
             (lookup_singleton_eq _ _)).
    vm_compute. discriminate.
  - apply (getCachedEmbedding_ttl plainHash 1000 "bread" _
             {| embedding := [1%float]; timestamp := 0; ttl := 86400 |}
             (lookup_singleton_eq _ _)).
    vm_compute. reflexivity.
Defined.

Lemma textOfSize_length n : String.length (textOfSize n) = n.
Proof. induction n; simpl; congruence. Qed.

Lemma textOfSize_inj n m : textOfSize n = textOfSize m -> n = m.
Proof.
  intros H. rewrite <- (textOfSize_length n), <- (textOfSize_length m).
  now rewrite H.
Qed.

(** C7 fails as stated: no bound holds; for every candidate bound there
    is a sequence of puts after which the cache is larger. *)
Lemma cache_size_counterexample :
  ~ exists bound : nat, forall calls,
      (size (run plainHash calls ∅) <= bound)%nat.
Proof.
  intros [bound Hbound].
  specialize (Hbound (putAll (List.map textOfSize (seq 0 (S bound))))).
  rewrite run_putAll in Hbound.
  - rewrite map_size_empty, List.length_map, List.length_seq in Hbound. lia.
  - rewrite List.map_map. unfold plainHash.
    assert (Hinj : Inj eq eq textOfSize)
      by (intros n m; apply textOfSize_inj).
    apply (NoDup_fmap_2 textOfSize), NoDup_seq.
  - intros t _. apply lookup_empty.
Qed.

(** C6.  Texts with the same normal form have the same cache key, and an
    embedding cached for one is returned by a get for the other while the
    entry is younger than its TTL of 24 hours. *)
Theorem normalized_texts_share_entry (digest : string -> string)
    t1 t2 now now' e (cache : gmap string CacheEntry) :
  normalizeText t1 = normalizeText t2 ->
  now' - now < 24 * 60 * 60 * 1000 ->
  hashTextSpec digest t1 = hashTextSpec digest t2 /\
  getCachedEmbedding (hashTextSpec digest) now' t2
    (cacheEmbedding (hashTextSpec digest) now t1 e cache)
  = (Some e, cacheEmbedding (hashTextSpec digest) now t1 e cache).
Proof.
  intros Hnorm Hage.
  assert (Hkey : hashTextSpec digest t1 = hashTextSpec digest t2)
    by (unfold hashTextSpec; now rewrite Hnorm).
  split; [exact Hkey|].
  unfold getCachedEmbedding, cacheEmbedding. rewrite <- Hkey.
  rewrite lookup_insert_eq. simpl.
  destruct (Z.ltb_spec (now' - now) (24 * 60 * 60 * 1000));
    [reflexivity|lia].
Qed.

Lemma normalized_texts_share_entry_witness :
  hashTextSpec plainHash "  Baking   BREAD " = hashTextSpec plainHash "baking bread" /\
  getCachedEmbedding (hashTextSpec plainHash) 5000 "baking bread"
    (cacheEmbedding (hashTextSpec plainHash) 0 "  Baking   BREAD " [] ∅)
  = (Some [], cacheEmbedding (hashTextSpec plainHash) 0 "  Baking   BREAD " [] ∅).
Proof.
  apply (normalized_texts_share_entry plainHash); [reflexivity|lia].
Defined.

End CacheFacts.

(** ** Embedding cache: sequences of calls *)

Module CacheRunFacts.
Import JS EmbeddingCache CacheFacts Fixtures.
Local Open Scope Z_scope.

Section WithHash.

Variable hashText : string -> string.

Abbreviation getCachedEmbedding := (getCachedEmbedding hashText).
Abbreviation cacheEmbedding := (cacheEmbedding hashText).
Abbreviation run := (run hashText).

(** X9.  A put followed by a get under the same key, possibly for another text
    with the same hash: the get returns the vector just cached while less
    than 24 hours have passed on the clock, and from then on it misses and
    leaves the cache without any entry for the key. *)
Theorem put_then_get now now' t1 t2 e (cache : gmap string CacheEntry) :
  hashText t1 = hashText t2 ->
  getCachedEmbedding now' t2 (cacheEmbedding now t1 e cache) =
  if now' - now <? 86400000
  then (Some e, cacheEmbedding now t1 e cache)
  else (None, delete (hashText t1) cache).
Proof.
  intros Hkey. unfold EmbeddingCache.getCachedEmbedding, EmbeddingCache.cacheEmbedding.
  rewrite <- Hkey, lookup_insert_eq. simpl.
  change (24 * 60 * 60 * 1000) with 86400000.
  destruct (now' - now <? 86400000); [reflexivity|].
  rewrite delete_insert_eq. reflexivity.
Qed.

(** X10.  Caching a text again replaces its vector and restarts the 24 hours:
    the first put leaves no trace. *)
Theorem recaching_restarts_ttl now1 now2 now' text e1 e2
    (cache : gmap string CacheEntry) :
  now' - now2 < 86400000 ->
  cacheEmbedding now2 text e2 (cacheEmbedding now1 text e1 cache) =
    cacheEmbedding now2 text e2 cache /\
  getCachedEmbedding now' text
    (cacheEmbedding now2 text e2 (cacheEmbedding now1 text e1 cache)) =
    (Some e2, cacheEmbedding now2 text e2 cache).
Proof.
  intros Hage.
  assert (Hput : cacheEmbedding now2 text e2 (cacheEmbedding now1 text e1 cache) =
                 cacheEmbedding now2 text e2 cache).
  { unfold EmbeddingCache.cacheEmbedding. apply insert_insert_eq. }
  split; [exact Hput|]. rewrite Hput.
  unfold EmbeddingCache.getCachedEmbedding, EmbeddingCache.cacheEmbedding.
  rewrite lookup_insert_eq. simpl.
  change (24 * 60 * 60 * 1000) with 86400000.
  destruct (Z.ltb_spec (now' - now2) 86400000); [reflexivity|lia].
Qed.

(** X11.  After a miss the key has no entry, and every further get for the text
    misses and changes nothing, whatever the clock shows. *)
Theorem miss_is_permanent now now' text (cache : gmap string CacheEntry) :
  fst (getCachedEmbedding now text cache) = None ->
  let cache' := snd (getCachedEmbedding now text cache) in
  cache' !! hashText text = None /\
  getCachedEmbedding now' text cache' = (None, cache').
Proof.
  intros Hmiss cache'.
  assert (Hnone : cache' !! hashText text = None).
  { subst cache'. revert Hmiss. unfold EmbeddingCache.getCachedEmbedding.
    destruct (cache !! hashText text) as [cached|];
      [destruct (_ <? _)|]; simpl; intros Hmiss;
      try discriminate; apply lookup_delete_eq. }
  split; [exact Hnone|].
  apply getCachedEmbedding_absent, Hnone.
Qed.

Lemma getCachedEmbedding_subseteq now text (cache : gmap string CacheEntry) :
  snd (getCachedEmbedding now text cache) ⊆ cache.
Proof.
  unfold EmbeddingCache.getCachedEmbedding.
  destruct (cache !! hashText text) as [cached|];
    [destruct (_ <? _)|]; simpl; try reflexivity; apply delete_subseteq.
Qed.

(** X12.  Gets never add or change an entry: after any sequence of gets, every
    entry of the cache is an entry it had before. *)
Theorem gets_never_add reads : forall cache : gmap string CacheEntry,
  run (List.map (fun r => Get (fst r) (snd r)) reads) cache ⊆ cache.
Proof.
  unfold EmbeddingCache.run.
  induction reads as [|[now text] reads IH]; intros cache; simpl.
  - reflexivity.
  - etrans; [apply IH|]. apply getCachedEmbedding_subseteq.
Qed.

(** X13.  Every entry written through the cache interface has a TTL of 24
    hours, whatever the sequence of calls. *)
Theorem run_keeps_ttl calls : forall cache : gmap string CacheEntry,
  map_Forall (fun _ entry => ttl entry = 86400) cache ->
  map_Forall (fun _ entry => ttl entry = 86400) (run calls cache).
Proof.
  unfold EmbeddingCache.run.
  induction calls as [|c calls IH]; intros cache Hcache; simpl; [exact Hcache|].
  apply IH. destruct c as [now text|now text e]; simpl.
  - intros k entry Hk. apply (Hcache k).
    eapply lookup_weaken; [exact Hk|apply getCachedEmbedding_subseteq].
  - unfold EmbeddingCache.cacheEmbedding.
    apply map_Forall_insert_2; [reflexivity|exact Hcache].
Qed.

(** X14.  An entry is neither refreshed nor evicted by calls for other keys:
    expired or not, it stays as it is until a call uses its own key. *)
Theorem other_keys_leave_entry calls k : forall cache : gmap string CacheEntry,
  Forall (fun c => match c with
                   | Get _ text | Put _ text _ => hashText text <> k
                   end) calls ->
  run calls cache !! k = cache !! k.
Proof.
  unfold EmbeddingCache.run.
  induction calls as [|c calls IH]; intros cache Hcalls; simpl; [reflexivity|].
  inversion Hcalls as [|? ? Hc Hrest]; subst.
  rewrite IH by assumption.
  destruct c as [now text|now text e]; simpl.
  - apply getCachedEmbedding_others. congruence.
  - unfold EmbeddingCache.cacheEmbedding. apply lookup_insert_ne. exact Hc.
Qed.

(** What a get does to the cache depends on the entry of its key only:
    on two caches that agree on the key it keeps both or evicts from
    both. *)
Lemma getCachedEmbedding_snd now text (cache cache' : gmap string CacheEntry) :
  cache' !! hashText text = cache !! hashText text ->
  (snd (getCachedEmbedding now text cache) = cache /\
   snd (getCachedEmbedding now text cache') = cache') \/
  (snd (getCachedEmbedding now text cache) = delete (hashText text) cache /\
   snd (getCachedEmbedding now text cache') = delete (hashText text) cache').
Proof.
  intros Hk. unfold EmbeddingCache.getCachedEmbedding. rewrite Hk.
  destruct (cache !! hashText text) as [cached|];
    [destruct (_ <? _)|]; simpl; auto.
Qed.

Lemma getCachedEmbedding_fst now text (cache cache' : gmap string CacheEntry) :
  cache' !! hashText text = cache !! hashText text ->
  fst (getCachedEmbedding now text cache') = fst (getCachedEmbedding now text cache).
Proof.
  intros Hk. unfold EmbeddingCache.getCachedEmbedding. rewrite Hk.
  destruct (cache !! hashText text) as [cached|];
    [destruct (_ <? _)|]; reflexivity.
Qed.

(** X17.  Two calls under different keys can run in either order: the cache
    ends up the same, and a get returns the same whether or not a call
    under another key ran before it. *)
Theorem calls_under_different_keys_commute c1 c2 (cache : gmap string CacheEntry) :
  match c1, c2 with
  | (Get _ t1 | Put _ t1 _), (Get _ t2 | Put _ t2 _) => hashText t1 <> hashText t2
  end ->
  run [c1; c2] cache = run [c2; c1] cache /\
  match c2 with
  | Get now t2 =>
      fst (getCachedEmbedding now t2 (step hashText cache c1)) =
      fst (getCachedEmbedding now t2 cache)
  | Put _ _ _ => True
  end.
Proof.
  intros Hkeys. split.
  - unfold EmbeddingCache.run. cbn [List.fold_left].
    destruct c1 as [n1 t1|n1 t1 e1], c2 as [n2 t2|n2 t2 e2]; cbn [step].
    + destruct (getCachedEmbedding_snd n1 t1 cache
                  (snd (getCachedEmbedding n2 t2 cache)))
        as [[A1 A1']|[A1 A1']];
        [apply getCachedEmbedding_others; congruence| |];
      destruct (getCachedEmbedding_snd n2 t2 cache
                  (snd (getCachedEmbedding n1 t1 cache)))
        as [[A2 A2']|[A2 A2']];
        try (apply getCachedEmbedding_others; congruence);
      rewrite A1', A2', A1, A2; try reflexivity.
      apply delete_delete.
    + destruct (getCachedEmbedding_snd n1 t1 cache
                  (cacheEmbedding n2 t2 e2 cache))
        as [[A1 A1']|[A1 A1']];
        try (unfold EmbeddingCache.cacheEmbedding;
             apply lookup_insert_ne; congruence);
      rewrite A1', A1; [reflexivity|].
      unfold EmbeddingCache.cacheEmbedding.
      symmetry. apply delete_insert_ne. congruence.
    + destruct (getCachedEmbedding_snd n2 t2 cache
                  (cacheEmbedding n1 t1 e1 cache))
        as [[A2 A2']|[A2 A2']];
        try (unfold EmbeddingCache.cacheEmbedding;
             apply lookup_insert_ne; congruence);
      rewrite A2', A2; [reflexivity|].
      unfold EmbeddingCache.cacheEmbedding.
      apply delete_insert_ne. congruence.
    + unfold EmbeddingCache.cacheEmbedding. apply insert_insert_ne. congruence.
  - destruct c2 as [n2 t2|n2 t2 e2]; [|exact I].
    apply getCachedEmbedding_fst.
    destruct c1 as [n1 t1|n1 t1 e1]; simpl.
    + apply getCachedEmbedding_others. congruence.
    + unfold EmbeddingCache.cacheEmbedding. apply lookup_insert_ne. congruence.
Qed.

End WithHash.

Lemma put_then_get_witness :
  getCachedEmbedding plainHash 86399999 "bread"
    (cacheEmbedding plainHash 0 "bread" [1%float] ∅) =
  (Some [1%float], cacheEmbedding plainHash 0 "bread" [1%float] ∅).
Proof. apply (put_then_get plainHash 0 86399999 "bread" "bread"). reflexivity. Defined.

Lemma recaching_restarts_ttl_witness :
  cacheEmbedding plainHash 90000000 "bread" [2%float]
    (cacheEmbedding plainHash 0 "bread" [1%float] ∅) =
    cacheEmbedding plainHash 90000000 "bread" [2%float] ∅ /\
  getCachedEmbedding plainHash 90000001 "bread"
    (cacheEmbedding plainHash 90000000 "bread" [2%float]
       (cacheEmbedding plainHash 0 "bread" [1%float] ∅)) =
    (Some [2%float], cacheEmbedding plainHash 90000000 "bread" [2%float] ∅).
Proof. apply (recaching_restarts_ttl plainHash). lia. Defined.

Lemma miss_is_permanent_witness :
  let cache' :=
    snd (getCachedEmbedding plainHash 86400000 "bread"
           (cacheEmbedding plainHash 0 "bread" [1%float] ∅)) in
  cache' !! plainHash "bread" = None /\
  getCachedEmbedding plainHash 5 "bread" cache' = (None, cache').
Proof.
  apply (miss_is_permanent plainHash 86400000 5 "bread").
  vm_compute. reflexivity.
Defined.

Lemma run_keeps_ttl_witness :
  map_Forall (fun _ entry => ttl entry = 86400)
    (run plainHash [Put 0 "bread" []; Get 7 "rye"; Put 9 "rye" [1%float]] ∅).
Proof. apply run_keeps_ttl. apply map_Forall_empty. Defined.

Lemma other_keys_leave_entry_witness :
  run plainHash [Get 99999999999 "rye"; Put 99999999999 "rye" []]
    (cacheEmbedding plainHash 0 "bread" [1%float] ∅) !! "bread"%string =
  cacheEmbedding plainHash 0 "bread" [1%float] ∅ !! "bread"%string.
Proof.
  apply other_keys_leave_entry.
  repeat constructor; discriminate.
Defined.

Lemma calls_under_different_keys_commute_witness :
  run plainHash [Put 5 "rye" [1%float]; Get 86400000 "bread"]
    (cacheEmbedding plainHash 0 "bread" [] ∅) =
  run plainHash [Get 86400000 "bread"; Put 5 "rye" [1%float]]
    (cacheEmbedding plainHash 0 "bread" [] ∅) /\
  fst (getCachedEmbedding plainHash 86400000 "bread"
         (step plainHash (cacheEmbedding plainHash 0 "bread" [] ∅)
            (Put 5 "rye" [1%float]))) =
  fst (getCachedEmbedding plainHash 86400000 "bread"
         (cacheEmbedding plainHash 0 "bread" [] ∅)).
Proof.
  apply (calls_under_different_keys_commute plainHash
           (Put 5 "rye" [1%float]) (Get 86400000 "bread")).
  discriminate.
Defined.

End CacheRunFacts.

(** ** Similarity search over the heap: what it writes and what it returns *)

Module HeapFacts.
Import JS SortFacts Search SearchHeap Fixtures.
Local Open Scope float_scope.

Section WithModel.

Variable getEmbedding : string -> list number.
Variable JSON_parse : string -> list number.

Abbreviation semanticSearchM := (SearchHeap.semanticSearch getEmbedding JSON_parse).
Abbreviation rankedRefs := (SearchHeap.rankedRefs getEmbedding JSON_parse).
Abbreviation scoreRef := (SearchHeap.scoreRef JSON_parse).

(** The callback of [cards.map] reads and does not write. *)
Lemma mapM_scoreRef qe (h : gmap loc object) es rows :
  Forall2 (fun e row => h !! e = Some (OCard row)) es rows ->
  mapM (scoreRef qe) es h =
  Some (List.map (fun p => (fst p,
                    cosineSimilarity qe (JSON_parse (content_embedding (snd p)))))
          (List.combine es rows), h).
Proof.
  induction 1 as [|e row es rows He _ IH]; [reflexivity|].
  simpl. unfold bind at 1. unfold SearchHeap.scoreRef at 1.
  unfold bind at 1, loadCard, bind at 1, load. rewrite He. simpl.
  unfold value at 1, bind at 1. rewrite IH. reflexivity.
Qed.

(** One run, step by step: three allocations, and one store into the
    array that [filter] allocated. *)
Lemma semanticSearch_run query cards threshold (h : gmap loc object) es rows :
  h !! cards = Some (OCards es) ->
  Forall2 (fun e row => h !! e = Some (OCard row)) es rows ->
  exists mapped filtered result (om of1 of2 : object),
    h !! mapped = None /\
    <[mapped := om]> h !! filtered = None /\
    <[filtered := of2]> (<[filtered := of1]> (<[mapped := om]> h)) !! result = None /\
    semanticSearchM query cards threshold h =
    Some (result,
          <[result := OCards (rankedRefs query threshold es rows)]>
            (<[filtered := of2]> (<[filtered := of1]> (<[mapped := om]> h)))).
Proof.
  intros Hcards Hrows.
  set (qe := getEmbedding query).
  set (scored := List.map (fun p => (fst p,
                    cosineSimilarity qe (JSON_parse (content_embedding (snd p)))))
                   (List.combine es rows)).
  set (mapped := fresh (dom h)).
  set (h1 := <[mapped := OScored scored]> h).
  set (kept := List.filter (fun r => threshold <? snd r) scored).
  set (filtered := fresh (dom h1)).
  set (h2 := <[filtered := OScored kept]> h1).
  set (h3 := <[filtered := OScored (sort bySimilarityDescRef kept)]> h2).
  set (result := fresh (dom h3)).
  exists mapped, filtered, result, (OScored scored), (OScored kept),
    (OScored (sort bySimilarityDescRef kept)).
  split; [apply not_elem_of_dom, is_fresh|].
  split; [apply not_elem_of_dom, is_fresh|].
  split; [apply not_elem_of_dom, is_fresh|].
  cbv beta iota zeta delta
    [SearchHeap.semanticSearch bind loadCards loadScored load value alloc store].
  rewrite Hcards. fold qe.
  rewrite (mapM_scoreRef qe h es rows Hrows). fold scored mapped h1.
  unfold h1 at 1. rewrite lookup_insert_eq. fold h1 kept filtered h2.
  unfold h2 at 1. rewrite lookup_insert_eq. fold h2 h3.
  unfold h3 at 1. rewrite lookup_insert_eq. fold h3 result.
  reflexivity.
Qed.

Lemma scoreRef_run qe e (h : gmap loc object) :
  scoreRef qe e h =
  match h !! e with
  | Some (OCard row) =>
      Some ((e, cosineSimilarity qe (JSON_parse (content_embedding row))), h)
  | _ => None
  end.
Proof.
  cbv beta iota zeta delta [SearchHeap.scoreRef bind loadCard load value].
  destruct (h !! e) as [[row| |]|]; reflexivity.
Qed.

Lemma mapM_scoreRef_inv qe es : forall (h : gmap loc object) scored h1,
  mapM (scoreRef qe) es h = Some (scored, h1) ->
  h1 = h /\
  exists rows, Forall2 (fun e row => h !! e = Some (OCard row)) es rows.
Proof.
  induction es as [|e es IH]; intros h scored h1 Hrun.
  - cbn [mapM] in Hrun. unfold value in Hrun. inversion Hrun; subst.
    split; [reflexivity|]. exists []. constructor.
  - cbn [mapM] in Hrun. unfold bind at 1 in Hrun.
    rewrite scoreRef_run in Hrun.
    destruct (h !! e) as [[row| |]|] eqn:He; try discriminate.
    unfold bind, value in Hrun.
    destruct (mapM (scoreRef qe) es h) as [[ys h2]|] eqn:Hrest;
      [|discriminate].
    destruct (IH _ _ _ Hrest) as (-> & rows & Hrows).
    inversion Hrun; subst. split; [reflexivity|].
    exists (row :: rows). constructor; assumption.
Qed.

(** The search returns only on a heap where [cards] is an array of card
    references. *)
Lemma semanticSearch_returns query cards threshold (h : gmap loc object)
    result h' :
  semanticSearchM query cards threshold h = Some (result, h') ->
  exists rows, denotes h cards rows.
Proof.
  intros Hrun.
  cbv beta iota zeta delta [SearchHeap.semanticSearch bind loadCards load value]
    in Hrun.
  destruct (h !! cards) as [[ |es| ]|] eqn:Hcards; try discriminate.
  destruct (mapM _ es h) as [[scored h1]|] eqn:Hmap; [|discriminate].
  destruct (mapM_scoreRef_inv _ _ _ _ _ Hmap) as (_ & rows & Hrows).
  exists rows, es. split; [exact Hcards|exact Hrows].
Qed.

(** Writing at a reference that held nothing keeps every object. *)
Lemma lookup_insert_fresh (h : gmap loc object) m x l o :
  h !! m = None -> h !! l = Some o -> <[m := x]> h !! l = Some o.
Proof.
  intros Hm Hl. rewrite lookup_insert_ne; [assumption|congruence].
Qed.

Lemma Forall2_project {A B : Type} (P : A -> B -> Prop) (L : list (A * B)) :
  (forall p, In p L -> P (fst p) (snd p)) ->
  Forall2 P (List.map fst L) (List.map snd L).
Proof.
  induction L as [|p L IH]; intros H; simpl; constructor.
  - apply H. now left.
  - apply IH. intros q Hq. apply H. now right.
Qed.

Lemma Forall2_combine {A B : Type} (P : A -> B -> Prop) xs ys :
  Forall2 P xs ys ->
  List.map fst (List.combine xs ys) = xs /\
  List.map snd (List.combine xs ys) = ys /\
  forall p, In p (List.combine xs ys) -> P (fst p) (snd p).
Proof.
  induction 1 as [|x y xs ys Hxy _ (IH1 & IH2 & IH3)]; simpl.
  - repeat split. intros p [].
  - rewrite IH1, IH2. repeat split.
    intros p [<-|Hp]; [exact Hxy|apply IH3, Hp].
Qed.

(** The result array holds the references of exactly the cards that the
    search returns as a function of the rows, in the same order. *)
Lemma rankedRefs_rows query threshold (h : gmap loc object) es rows :
  Forall2 (fun e row => h !! e = Some (OCard row)) es rows ->
  Forall2 (fun e row => h !! e = Some (OCard row))
    (rankedRefs query threshold es rows)
    (Search.semanticSearch getEmbedding JSON_parse query rows threshold).
Proof.
  intros Hrows.
  destruct (Forall2_combine _ _ _ Hrows) as (Hfst & Hsnd & Hpairs).
  set (pairs := List.combine es rows) in *.
  set (key := fun p : loc * Card =>
                Search.scoreOf getEmbedding JSON_parse query (snd p)).
  set (L := sort (fun a b => key b - key a)
              (List.filter (fun p => threshold <? key p) pairs)).
  assert (Hrefs : rankedRefs query threshold es rows = List.map fst L).
  { unfold SearchHeap.rankedRefs. fold pairs.
    rewrite filter_map_comm, sort_map, List.map_map. reflexivity. }
  assert (Hout : Search.semanticSearch getEmbedding JSON_parse query rows threshold
                 = List.map snd L).
  { rewrite SearchFacts.semanticSearch_cards, <- Hsnd.
    rewrite filter_map_comm, sort_map. reflexivity. }
  rewrite Hrefs, Hout. apply Forall2_project.
  intros p Hp. apply Hpairs.
  apply (proj1 (sort_In key _ _)) in Hp.
  apply List.filter_In in Hp. tauto.
Qed.

(** C9.  On a heap where [cards] is an array of card references, the
    search returns a fresh array and writes to no object that existed
    before the call: the candidate array and every card are unchanged.
    The array it returns holds the cards that [Search.semanticSearch]
    computes from the rows, and a second call with the same arguments
    returns an array with the same contents. *)
Theorem semanticSearch_pure query cards threshold (h : gmap loc object) rows :
  denotes h cards rows ->
  exists result h',
    semanticSearchM query cards threshold h = Some (result, h') /\
    (forall l o, h !! l = Some o -> h' !! l = Some o) /\
    h !! result = None /\
    denotes h' cards rows /\
    denotes h' result
      (Search.semanticSearch getEmbedding JSON_parse query rows threshold) /\
    exists result2 h2,
      semanticSearchM query cards threshold h' = Some (result2, h2) /\
      h2 !! result2 = h' !! result.
Proof.
  intros (es & Hcards & Hrows).
  destruct (semanticSearch_run query cards threshold h es rows Hcards Hrows)
    as (mapped & filtered & result & om & of1 & of2 & Hm & Hf & Hr & Hrun).
  set (h3 := <[filtered := of2]> (<[filtered := of1]> (<[mapped := om]> h))) in *.
  set (out := rankedRefs query threshold es rows) in *.
  set (h' := <[result := OCards out]> h3) in *.
  assert (Hframe3 : forall l o, h !! l = Some o -> h3 !! l = Some o).
  { intros l o Hl. unfold h3.
    assert (Hl1 : <[mapped := om]> h !! l = Some o)
      by (apply lookup_insert_fresh; assumption).
    assert (Hne : filtered <> l) by congruence.
    rewrite !lookup_insert_ne by assumption. exact Hl1. }
  assert (Hframe : forall l o, h !! l = Some o -> h' !! l = Some o).
  { intros l o Hl. apply lookup_insert_fresh; [exact Hr|apply Hframe3, Hl]. }
  assert (Hrows' : Forall2 (fun e row => h' !! e = Some (OCard row)) es rows).
  { eapply Forall2_impl; [exact Hrows|]. intros e row He. apply Hframe, He. }
  exists result, h'. split; [exact Hrun|]. split; [exact Hframe|].
  split.
  { destruct (h !! result) as [o|] eqn:E; [|reflexivity].
    apply Hframe3 in E. congruence. }
  split.
  { exists es. split; [apply Hframe, Hcards|exact Hrows']. }
  split.
  { exists out. split; [apply lookup_insert_eq|].
    apply rankedRefs_rows, Hrows'. }
  destruct (semanticSearch_run query cards threshold h' es rows
              (Hframe _ _ Hcards) Hrows')
    as (mapped2 & filtered2 & result2 & om2 & of12 & of22 & _ & _ & _ & Hrun2).
  eexists result2, _. split; [exact Hrun2|].
  fold out. rewrite lookup_insert_eq. unfold h'. rewrite lookup_insert_eq.
  reflexivity.
Qed.

End WithModel.

Lemma semanticSearch_pure_witness :
  exists result h',
    SearchHeap.semanticSearch exampleEmbedding exampleParse
      "bread" 3%positive defaultThreshold exampleHeap = Some (result, h') /\
    (forall l o, exampleHeap !! l = Some o -> h' !! l = Some o) /\
    exampleHeap !! result = None /\
    denotes h' 3%positive [cardB; cardA] /\
    denotes h' result
      (Search.semanticSearch exampleEmbedding exampleParse
         "bread" [cardB; cardA] defaultThreshold) /\
    exists result2 h2,
      SearchHeap.semanticSearch exampleEmbedding exampleParse
        "bread" 3%positive defaultThreshold h' = Some (result2, h2) /\
      h2 !! result2 = h' !! result.
Proof.
  apply (semanticSearch_pure exampleEmbedding exampleParse).
  exists [1%positive; 2%positive].
  split; [reflexivity|repeat constructor].
Defined.

End HeapFacts.

(** ** Similarity search: exceptions *)

Module ThrowFacts.
Import JS Search Fixtures RankingFixtures.
Local Open Scope float_scope.

Section WithModel.

Variable getEmbedding : string -> option (list number).
Variable JSON_parse : string -> option (list number).

Lemma mapThrowing_None {A B : Type} (f : A -> option B) l :
  SearchThrows.mapThrowing f l = None <-> Exists (fun x => f x = None) l.
Proof.
  induction l as [|x l IH]; simpl.
  - split; [discriminate|]. intros H. inversion H.
  - destruct (f x) as [y|] eqn:E.
    + destruct (SearchThrows.mapThrowing f l) as [ys|].
      * split; [discriminate|]. intros H.
        inversion H as [? ? Hx|? ? Hl]; subst; [congruence|].
        apply IH in Hl. discriminate.
      * split; [|reflexivity]. intros _. apply Exists_cons_tl, IH. reflexivity.
    + split; [|reflexivity]. intros _. now apply Exists_cons_hd.
Qed.

Lemma mapThrowing_Some {A B : Type} (f : A -> option B) (g : A -> B) l :
  Forall (fun x => f x = Some (g x)) l ->
  SearchThrows.mapThrowing f l = Some (List.map g l).
Proof.
  induction 1 as [|x l Hx _ IH]; simpl; [reflexivity|].
  rewrite Hx, IH. reflexivity.
Qed.

(** X18.  The search rejects exactly when [getEmbedding] rejects for the
    query or some candidate's embedding text cannot be read as an array;
    such a candidate fails the whole search wherever it stands and
    whatever the threshold is, and a failing embedding model fails it
    even for an empty candidate list. *)
Theorem semanticSearch_rejects_iff query cards threshold :
  SearchThrows.semanticSearch getEmbedding JSON_parse query cards threshold = None <->
  getEmbedding query = None \/
  Exists (fun c => JSON_parse (content_embedding c) = None) cards.
Proof.
  unfold SearchThrows.semanticSearch.
  destruct (getEmbedding query) as [queryEmbedding|]; [|tauto].
  destruct (SearchThrows.mapThrowing _ cards) as [scored|] eqn:E.
  - split; [discriminate|]. intros [Hq|Hex]; [discriminate|].
    assert (Hnone : SearchThrows.mapThrowing
              (SearchThrows.score JSON_parse queryEmbedding) cards = None).
    { apply mapThrowing_None. eapply List.Exists_impl; [|exact Hex].
      intros c Hc. unfold SearchThrows.score. simpl in Hc. now rewrite Hc. }
    congruence.
  - split; [|reflexivity]. intros _. right.
    apply mapThrowing_None in E. eapply List.Exists_impl; [|exact E].
    intros c Hc. unfold SearchThrows.score in Hc. simpl in Hc.
    destruct (JSON_parse (content_embedding c)); [discriminate|reflexivity].
Qed.

(** X19.  When [getEmbedding] resolves for the query and every candidate's
    embedding text denotes an array, the search resolves, with the list
    that the search without rejections computes from the query vector
    and the parsed arrays. *)
Theorem semanticSearch_resolves query queryEmbedding cards threshold :
  getEmbedding query = Some queryEmbedding ->
  Forall (fun c => is_Some (JSON_parse (content_embedding c))) cards ->
  SearchThrows.semanticSearch getEmbedding JSON_parse query cards threshold =
  Some (Search.semanticSearch (fun _ => queryEmbedding)
          (SearchThrows.parsedArray JSON_parse) query cards threshold).
Proof.
  intros Hq Hall. unfold SearchThrows.semanticSearch, Search.semanticSearch.
  rewrite Hq. cbv zeta.
  rewrite (mapThrowing_Some _
             (score (SearchThrows.parsedArray JSON_parse) queryEmbedding)).
  - reflexivity.
  - eapply List.Forall_impl; [|exact Hall].
    intros c [v Hv]. unfold SearchThrows.score, score, candidateVector,
      SearchThrows.parsedArray. rewrite Hv. reflexivity.
Qed.

End WithModel.

Lemma semanticSearch_resolves_witness :
  SearchThrows.semanticSearch loadedEmbedding strictParse "bread"
    [cardSteep; cardA] 0.5 =
  Some (Search.semanticSearch (fun _ => [1; 0])
          (SearchThrows.parsedArray strictParse) "bread"
          [cardSteep; cardA] 0.5).
Proof.
  apply semanticSearch_resolves.
  - reflexivity.
  - repeat constructor; eexists; reflexivity.
Defined.

End ThrowFacts.

(** ** Deck interchange *)

Module SyncFacts.
Import JS Sync.

Lemma mapM_map_Some {A : Type} (f : A -> json) (g : json -> option A) l :
  (forall a, g (f a) = Some a) -> mapM g (List.map f l) = Some l.
Proof.
  intros Hgf. induction l as [|a l IH]; [reflexivity|].
  simpl. rewrite Hgf. simpl. rewrite IH. reflexivity.
Qed.

Lemma mapM_map_Some_with {A B : Type} (f : A -> json) (g : json -> option B)
    (r : A -> B) l :
  (forall a, g (f a) = Some (r a)) ->
  mapM g (List.map f l) = Some (List.map r l).
Proof.
  intros Hgf. induction l as [|a l IH]; [reflexivity|].
  simpl. rewrite Hgf. simpl. rewrite IH. reflexivity.
Qed.

Lemma deserializeCard_serializeCard c :
  deserializeCard (serializeCard c) = Some (portable c).
Proof.
  unfold serializeCard, cardMembers, deserializeCard, readEmbedding, portable.
  cbn [member String.eqb Ascii.eqb Bool.eqb mbind option_bind asString asBool
       asArrayOf].
  rewrite (mapM_map_Some JString asString) by reflexivity.
  cbn [mbind option_bind].
  destruct (contentEmbedding c) as [sv|]; [|reflexivity].
  cbn [asArrayOf mbind option_bind].
  rewrite (mapM_map_Some JNumber asNumber) by reflexivity.
  reflexivity.
Qed.

Lemma round_trip_eq deck cards :
  deserialize (serialize deck cards) = inr (deck, List.map portable cards).
Proof.
  unfold deserialize, serialize, documentMembers, parseDocument.
  cbn [member String.eqb Ascii.eqb Bool.eqb mbind option_bind asString
       asNumber asArrayOf].
  rewrite (mapM_map_Some_with serializeCard deserializeCard portable)
    by apply deserializeCard_serializeCard.
  cbn [mbind option_bind]. destruct deck; reflexivity.
Qed.

(** C3.  Deserializing the document that [serialize] produces succeeds
    and gives back the deck's name and description and, card by card in
    the same order, the content and the tags (and the id, title and
    favorite flag); each embedding comes back as the same sequence of
    numbers or stays absent, so on a deck whose embeddings have the
    model's length [L] every embedding after the round trip is absent or
    of length [L]. *)
Theorem deserialize_serialize (L : nat) deck cards :
  exists deck' cards',
    deserialize (serialize deck cards) = inr (deck', cards') /\
    name deck' = name deck /\
    description deck' = description deck /\
    Forall2 (fun c' c =>
               backContent c' = backContent c /\ tags c' = tags c /\
               id c' = id c /\ frontTitle c' = frontTitle c /\
               favorite c' = favorite c /\
               option_map toArray (contentEmbedding c') =
               option_map toArray (contentEmbedding c))
      cards' cards /\
    (Forall (embeddingOk L) cards -> Forall (embeddingOk L) cards').
Proof.
  exists deck, (List.map portable cards).
  split; [apply round_trip_eq|].
  split; [reflexivity|]. split; [reflexivity|]. split.
  - induction cards as [|c cards IH]; simpl; constructor; [|exact IH].
    repeat split. simpl. destruct (contentEmbedding c); reflexivity.
  - intros Hok. induction Hok as [|c cards Hc _ IH]; simpl; constructor;
      [|exact IH].
    unfold embeddingOk in *. simpl. destruct (contentEmbedding c); exact Hc.
Qed.

Lemma deserialize_serialize_witness :
  exists deck' cards',
    deserialize (serialize SyncFixtures.breadDeck SyncFixtures.breadCards)
      = inr (deck', cards') /\
    name deck' = "Baking"%string /\
    List.map backContent cards' =
      ["how to bake bread"; "sourdough baking tips"; "quarterly tax filing"]%string /\
    List.map tags cards' = [["baking"; "bread"]; ["baking"]; []]%string /\
    Forall (embeddingOk 2) cards'.
Proof.
  destruct (deserialize_serialize 2 SyncFixtures.breadDeck SyncFixtures.breadCards)
    as (deck' & cards' & Hd & Hname & _ & Hcards & Hemb).
  exists deck', cards'. split; [exact Hd|]. split; [exact Hname|].
  rewrite round_trip_eq in Hd. inversion Hd; subst.
  split; [reflexivity|]. split; [reflexivity|].
  apply Hemb. repeat constructor.
Defined.

(** *** The parser accepts exactly the documents of the schema *)

Lemma hasMember_asString key members :
  hasMember isString key members = isSome (member key members ≫= asString).
Proof.
  unfold hasMember. destruct (member key members) as [[]|]; reflexivity.
Qed.

Lemma hasMember_asBool key members :
  hasMember isBool key members = isSome (member key members ≫= asBool).
Proof.
  unfold hasMember. destruct (member key members) as [[]|]; reflexivity.
Qed.

Lemma hasMember_asNumber key members :
  hasMember isNumber key members = isSome (member key members ≫= asNumber).
Proof.
  unfold hasMember. destruct (member key members) as [[]|]; reflexivity.
Qed.

Lemma forallb_mapM {A : Type} (check : json -> bool) (item : json -> option A) :
  (forall j, check j = isSome (item j)) ->
  forall items, forallb check items = isSome (mapM item items).
Proof.
  intros Hitem. induction items as [|j items IH]; [reflexivity|].
  simpl. rewrite Hitem, IH.
  destruct (item j); [|reflexivity]. simpl.
  destruct (mapM item items); reflexivity.
Qed.

Lemma isArrayOf_asArrayOf {A : Type} (check : json -> bool)
    (item : json -> option A) :
  (forall j, check j = isSome (item j)) ->
  forall j, isArrayOf check j = isSome (asArrayOf item j).
Proof.
  intros Hitem j. destruct j; try reflexivity. simpl.
  now apply forallb_mapM.
Qed.

Lemma hasMember_asArrayOf {A : Type} (check : json -> bool)
    (item : json -> option A) key members :
  (forall j, check j = isSome (item j)) ->
  hasMember (isArrayOf check) key members =
  isSome (member key members ≫= asArrayOf item).
Proof.
  intros Hitem. unfold hasMember.
  destruct (member key members) as [j|]; [|reflexivity].
  simpl. now apply isArrayOf_asArrayOf.
Qed.

Lemma isString_asString j : isString j = isSome (asString j).
Proof. destruct j; reflexivity. Qed.

Lemma isNumber_asNumber j : isNumber j = isSome (asNumber j).
Proof. destruct j; reflexivity. Qed.

Lemma validCard_deserializeCard j : validCard j = isSome (deserializeCard j).
Proof.
  destruct j as [| | | | |members]; try reflexivity.
  unfold validCard, deserializeCard, readEmbedding.
  rewrite !hasMember_asString, hasMember_asBool.
  rewrite (hasMember_asArrayOf isString asString) by apply isString_asString.
  destruct (member "id" members ≫= asString); [|reflexivity].
  destruct (member "frontTitle" members ≫= asString); [|reflexivity].
  destruct (member "backContent" members ≫= asString); [|reflexivity].
  destruct (member "tags" members ≫= asArrayOf asString); [|reflexivity].
  destruct (member "favorite" members ≫= asBool); [|reflexivity].
  simpl. destruct (member "embedding" members) as [e|]; [|reflexivity].
  destruct e; try reflexivity. simpl.
  rewrite (forallb_mapM isNumber asNumber) by apply isNumber_asNumber.
  destruct (mapM asNumber items); reflexivity.
Qed.

Lemma validDocument_parseDocument doc :
  validDocument doc = isSome (parseDocument doc).
Proof.
  destruct doc as [| | | | |members]; try reflexivity.
  unfold validDocument, parseDocument.
  rewrite !hasMember_asString, hasMember_asNumber.
  rewrite (hasMember_asArrayOf validCard deserializeCard)
    by apply validCard_deserializeCard.
  destruct (member "formatVersion" members ≫= asNumber); [|reflexivity].
  destruct (member "name" members ≫= asString); [|reflexivity].
  destruct (member "description" members ≫= asString); [|reflexivity].
  destruct (member "cards" members ≫= asArrayOf deserializeCard);
    reflexivity.
Qed.

(** C8.  Import of a document that fails schema validation returns
    MalformedDocument and leaves the local store as it was: no deck and
    no card of the document is written. *)
Theorem import_rejects_malformed deckId doc
    (store : gmap string (Deck * list Card)) :
  validDocument doc = false ->
  importDocument deckId doc store = (inl MalformedDocument, store).
Proof.
  rewrite validDocument_parseDocument.
  unfold importDocument, deserialize.
  destruct (parseDocument doc); [discriminate|reflexivity].
Qed.

(** A document that passes validation is imported as a whole. *)
Lemma import_accepts_valid deckId doc (store : gmap string (Deck * list Card)) :
  validDocument doc = true ->
  exists imported,
    parseDocument doc = Some imported /\
    importDocument deckId doc store = (inr deckId, <[deckId := imported]> store).
Proof.
  rewrite validDocument_parseDocument.
  unfold importDocument, deserialize.
  destruct (parseDocument doc) as [imported|]; [|discriminate].
  intros _. exists imported. split; reflexivity.
Qed.

Lemma import_rejects_malformed_witness :
  importDocument "deck-2" SyncFixtures.partlyValidDocument SyncFixtures.localStore
  = (inl MalformedDocument, SyncFixtures.localStore).
Proof.
  apply import_rejects_malformed. reflexivity.
Defined.

End SyncFacts.

(** ** deck.json: the document carries no embedding *)

Module DeckJsonFacts.
Import JS Sync DeckJson DeckJsonFixtures SyncFacts.







(** The serializer writes the sample document of the sources for the
    sample's deck and card, and the import reads that document. *)
Remark sample_document :
  serialize_deck promptDeck [portraitCard] = sampleDocument /\
  github_import sampleDocument =
  Some {| deck := promptDeck; cards := [withoutEmbedding portraitCard];
          embeddingJob := ["card-1"%string] |}.
Proof. split; reflexivity. Qed.


End DeckJsonFacts.

(** ** Schema selection: the group a field comes from *)

Module MigrationFacts.
Import Migration.

Section WithSchema.

Context {Field : Type}.
Variable schema : Schema Field.
Variable useVectorSearch : bool.

Abbreviation getSchema := (getSchema schema useVectorSearch).

Lemma getSchema_web :
  getSchema "web" = pgvector schema ∪ universal schema.
Proof.
  unfold Migration.getSchema, spread. simpl.
  rewrite map_empty_union, map_union_empty. reflexivity.
Qed.

Lemma getSchema_desktop :
  getSchema "desktop" =
  if useVectorSearch then sqlite_vss schema ∪ universal schema
  else universal schema.
Proof.
  unfold Migration.getSchema, spread. simpl.
  rewrite map_union_empty.
  destruct useVectorSearch; simpl; rewrite map_empty_union;
    try rewrite map_empty_union; reflexivity.
Qed.

Lemma getSchema_other platform :
  platform <> "web"%string -> platform <> "desktop"%string ->
  getSchema platform = universal schema.
Proof.
  intros Hweb Hdesktop. unfold Migration.getSchema, spread.
  apply String.eqb_neq in Hweb, Hdesktop. rewrite Hweb, Hdesktop. simpl.
  rewrite map_union_empty, !map_empty_union. reflexivity.
Qed.

(** X15.  The schema of a platform has every universal field name; a field
    that the universal group does not define comes from the pgvector
    group on "web" or from the sqlite_vss group on "desktop" with vector
    search on, and from nowhere else; on "web" a pgvector field replaces
    the universal field of the same name. *)
Theorem getSchema_groups platform :
  (forall k, is_Some (universal schema !! k) -> is_Some (getSchema platform !! k)) /\
  (forall k f, universal schema !! k = None -> getSchema platform !! k = Some f ->
     (platform = "web"%string /\ pgvector schema !! k = Some f) \/
     (platform = "desktop"%string /\ useVectorSearch = true /\
      sqlite_vss schema !! k = Some f)) /\
  (forall k f, pgvector schema !! k = Some f -> getSchema "web" !! k = Some f).
Proof.
  split; [|split].
  - intros k Hk. unfold Migration.getSchema, spread.
    rewrite !lookup_union_is_Some. auto.
  - intros k f Hnone Hk.
    destruct (String.eqb_spec platform "web") as [-> |Hweb].
    + left. split; [reflexivity|]. rewrite getSchema_web in Hk.
      apply lookup_union_Some_raw in Hk. destruct Hk as [Hk|[_ Hk]];
        [exact Hk|congruence].
    + destruct (String.eqb_spec platform "desktop") as [-> |Hdesktop].
      * right. rewrite getSchema_desktop in Hk.
        destruct useVectorSearch; [|congruence].
        split; [reflexivity|]. split; [reflexivity|].
        apply lookup_union_Some_raw in Hk. destruct Hk as [Hk|[_ Hk]];
          [exact Hk|congruence].
      * rewrite getSchema_other in Hk by assumption. congruence.
  - intros k f Hk. rewrite getSchema_web. apply lookup_union_Some_l, Hk.
Qed.

End WithSchema.

End MigrationFacts.
